(** * The Sonarr/Radarr refiner of subliminal_patch (refiners/drone.py)

    A shallow embedding of the module: Python values and the handful of
    built-in operations the module applies to them, the logging and HTTP
    effects as an explicit world, the two API clients, the dispatcher and
    [refine], followed by the properties of the module. *)

From Stdlib Require Import ZArith NArith String Ascii List Bool Lia DecimalString.
From stdpp Require Import base option gmap strings list fin_maps.

Set Warnings "-register-all,-clear-no-such-hyp".

Local Open Scope string_scope.
Local Open Scope Z_scope.

(** ** Python values *)

(** The values that travel through the module: what the JSON decoder
    returns, what the attributes of a video hold and what guessit reports.
    A dict keeps its items as a list, read from the front. *)
Inductive value : Type :=
| VNone
| VBool (b : bool)
| VInt (z : Z)
| VStr (s : string)
| VList (l : list value)
| VDict (d : list (string * value)).

(** The exceptions the module can raise or let through. *)
Inductive exn : Type :=
| KeyError (key : string)
| TypeError
| AttributeError (attr : string)
| NotImplementedError (media_type : string)
| RequestException.

Inductive result (A : Type) : Type :=
| Ok (a : A)
| Raise (e : exn).
Arguments Ok {A} a.
Arguments Raise {A} e.

(** [bool(x)], the test behind [if x], [not x] and [x and y]. *)
Definition truthy (v : value) : bool :=
  match v with
  | VNone => false
  | VBool b => b
  | VInt z => negb (z =? 0)
  | VStr s => negb (String.eqb s "")
  | VList l => match l with [] => false | _ => true end
  | VDict d => match d with [] => false | _ => true end
  end.

(** Lookup of a key among the items of a dict. *)
Fixpoint items_get {A : Type} (k : string) (d : list (string * A)) : option A :=
  match d with
  | [] => None
  | (k', v) :: d' => if String.eqb k k' then Some v else items_get k d'
  end.

Definition items_has {A : Type} (k : string) (d : list (string * A)) : bool :=
  match items_get k d with Some _ => true | None => false end.

(** [d[k] = v] on the items of a dict: the item is replaced in place, or
    added at the end. *)
Fixpoint items_set {A : Type} (k : string) (v : A) (d : list (string * A))
  : list (string * A) :=
  match d with
  | [] => [(k, v)]
  | (k', v') :: d' =>
      if String.eqb k k' then (k, v) :: d' else (k', v') :: items_set k v d'
  end.

Definition bool_int (b : bool) : Z := if b then 1 else 0.

(** [a == b]. Booleans compare as the integers 0 and 1, lists item by
    item, dicts by their keys and the values under them. *)
Fixpoint py_eq (a b : value) {struct a} : bool :=
  match a, b with
  | VNone, VNone => true
  | VBool x, VBool y => Bool.eqb x y
  | VBool x, VInt y => bool_int x =? y
  | VInt x, VBool y => x =? bool_int y
  | VInt x, VInt y => x =? y
  | VStr x, VStr y => String.eqb x y
  | VList x, VList y =>
      (fix all2 (x y : list value) {struct x} : bool :=
         match x, y with
         | [], [] => true
         | u :: x', w :: y' => py_eq u w && all2 x' y'
         | _, _ => false
         end) x y
  | VDict x, VDict y =>
      (fix sub (x : list (string * value)) : bool :=
         match x with
         | [] => true
         | (k, u) :: x' =>
             match items_get k y with
             | Some w => py_eq u w
             | None => false
             end && sub x'
         end) x
      && forallb (fun kv => items_has (fst kv) x) y
  | _, _ => false
  end.

(** [x is None]. *)
Definition is_None (v : value) : bool :=
  match v with VNone => true | _ => false end.

(** [v[k]] for a string key: [KeyError] on a dict without the key,
    [TypeError] on anything that is not a dict. *)
Definition subscript (v : value) (k : string) : result value :=
  match v with
  | VDict d => match items_get k d with
               | Some x => Ok x
               | None => Raise (KeyError k)
               end
  | _ => Raise TypeError
  end.

(** [k in v] for a string key. Only dicts and lists are searched; a
    number, a boolean or None is not a container. A string is searched for
    the key as a substring. *)
Fixpoint is_substring (p s : string) : bool :=
  String.prefix p s ||
  match s with
  | EmptyString => false
  | String _ s' => is_substring p s'
  end.

Definition contains (v : value) (k : string) : result bool :=
  match v with
  | VDict d => Ok (items_has k d)
  | VList l => Ok (existsb (py_eq (VStr k)) l)
  | VStr s => Ok (is_substring k s)
  | _ => Raise TypeError
  end.

(** [v.get(k, default)]: only a dict has the method. *)
Definition dict_get (v : value) (k : string) (default : value) : result value :=
  match v with
  | VDict d => Ok (match items_get k d with Some x => x | None => default end)
  | _ => Raise (AttributeError "get")
  end.

(** The items a [for] loop over [v] visits: the items of a list, the keys
    of a dict, the characters of a string. *)
Fixpoint chars (s : string) : list value :=
  match s with
  | EmptyString => []
  | String a s' => VStr (String a EmptyString) :: chars s'
  end.

Fixpoint keys_once (seen : list string) (d : list (string * value)) : list value :=
  match d with
  | [] => []
  | (k, _) :: d' =>
      if existsb (String.eqb k) seen then keys_once seen d'
      else VStr k :: keys_once (k :: seen) d'
  end.

Definition py_iter (v : value) : result (list value) :=
  match v with
  | VList l => Ok l
  | VDict d => Ok (keys_once [] d)
  | VStr s => Ok (chars s)
  | _ => Raise TypeError
  end.

(** ** Strings *)

(** [s.endswith(suffix)]. *)
Definition endswith (s suffix : string) : bool :=
  String.prefix (String.rev suffix) (String.rev s).

(** [s.rfind(c)] for a single character: the last index, or -1. *)
Fixpoint rfind_from (c : ascii) (s : string) (i last : Z) : Z :=
  match s with
  | EmptyString => last
  | String a s' => rfind_from c s' (i + 1) (if Ascii.eqb a c then i else last)
  end.

Definition rfind (c : ascii) (s : string) : Z := rfind_from c s 0 (-1).

(** [s[i:]] and [s[i:j]] for indices within the string. *)
Definition slice_from (s : string) (i : Z) : string :=
  String.substring (Z.to_nat i) (String.length s - Z.to_nat i) s.

Definition slice (s : string) (i j : Z) : string :=
  String.substring (Z.to_nat i) (Z.to_nat j - Z.to_nat i) s.

(** The loop of [genericpath._splitext] that skips the leading dots of
    the file name: [n] positions from [i] on remain to be inspected. *)
Fixpoint splitext_scan (p : string) (i : Z) (n : nat) : bool :=
  match n with
  | O => false
  | S n' =>
      match String.get (Z.to_nat i) p with
      | Some a => if Ascii.eqb a "." then splitext_scan p (i + 1) n' else true
      | None => false
      end
  end.

(** [os.path.splitext(p)] (posixpath). *)
Definition splitext (p : string) : string * string :=
  let sepIndex := rfind "/" p in
  let dotIndex := rfind "." p in
  if (sepIndex <? dotIndex)
     && splitext_scan p (sepIndex + 1) (Z.to_nat (dotIndex - (sepIndex + 1)))
  then (slice p 0 dotIndex, slice_from p dotIndex)
  else (p, "").

(** [os.path.basename(p)] (posixpath). *)
Definition basename (p : string) : string :=
  slice_from p (rfind "/" p + 1).

(** [s.split(sep)] for a single character. *)
Fixpoint split (sep : ascii) (s : string) : list string :=
  match s with
  | EmptyString => [""]
  | String a s' =>
      if Ascii.eqb a sep then "" :: split sep s'
      else match split sep s' with
           | h :: t => String a h :: t
           | [] => [String a ""]
           end
  end.

Definition in_range (lo hi : N) (a : ascii) : bool :=
  let n := N_of_ascii a in ((lo <=? n) && (n <=? hi))%N.

Definition upper (a : ascii) : ascii :=
  if in_range 97 122 a then ascii_of_N (N_of_ascii a - 32) else a.

Definition lower (a : ascii) : ascii :=
  if in_range 65 90 a then ascii_of_N (N_of_ascii a + 32) else a.

Fixpoint map_string (f : ascii -> ascii) (s : string) : string :=
  match s with
  | EmptyString => EmptyString
  | String a s' => String (f a) (map_string f s')
  end.

(** [s.capitalize()]: the first character in upper case, the others in
    lower case. *)
Definition capitalize (s : string) : string :=
  match s with
  | EmptyString => EmptyString
  | String a s' => String (upper a) (map_string lower s')
  end.

(** [''.join(l)]. *)
Definition join (l : list string) : string := String.concat "" l.

(** *** Byte strings of parameters *)

(** [u.encode("utf-8")] on the code points of a unicode string. *)
Definition byte (n : N) : ascii := ascii_of_N (n mod 256).

Definition utf8_char (c : N) : list ascii :=
  (if c <? 128 then [byte c]
   else if c <? 2048 then [byte (192 + c / 64); byte (128 + c mod 64)]
   else if c <? 65536 then
     [byte (224 + c / 4096); byte (128 + (c / 64) mod 64); byte (128 + c mod 64)]
   else
     [byte (240 + c / 262144); byte (128 + (c / 4096) mod 64);
      byte (128 + (c / 64) mod 64); byte (128 + c mod 64)])%N.

Definition encode_utf8 (u : list N) : string :=
  string_of_list_ascii (concat (map utf8_char u)).

(** [urllib.quote(s)] with the default [safe='/']: letters, digits and
    [_.-/] stay, any other byte becomes [%XX]. *)
Definition always_safe (a : ascii) : bool :=
  in_range 65 90 a || in_range 97 122 a || in_range 48 57 a
  || Ascii.eqb a "_" || Ascii.eqb a "." || Ascii.eqb a "-".

Definition hex_digit (n : N) : ascii :=
  (if n <? 10 then ascii_of_N (48 + n) else ascii_of_N (55 + n))%N.

Definition quote_char (a : ascii) : string :=
  if always_safe a || Ascii.eqb a "/" then String a ""
  else let n := N_of_ascii a in
       String "%" (String (hex_digit (n / 16)) (String (hex_digit (n mod 16)) "")).

Fixpoint quote (s : string) : string :=
  match s with
  | EmptyString => EmptyString
  | String a s' => quote_char a ++ quote s'
  end.

(** A value given to [build_params]: a byte string, a unicode string (its
    code points), or another object, of which the function only takes
    [str()]. *)
Inductive param : Type :=
| PStr (s : string)
| PUnicode (u : list N)
| PNone
| PBool (b : bool)
| PInt (z : Z)
| PObject (shown : string).

(** [str(p)], taken of what is not a string; a byte string is its own
    [str()], and for text the code asks for the UTF-8 bytes instead. *)
Definition py_str (p : param) : string :=
  match p with
  | PStr s => s
  | PUnicode u => encode_utf8 u
  | PNone => "None"
  | PBool true => "True"
  | PBool false => "False"
  | PInt z => NilZero.string_of_int (Z.to_int z)
  | PObject shown => shown
  end.

Definition is_string (p : param) : bool :=
  match p with PStr _ | PUnicode _ => true | _ => false end.

(** ** Videos *)

(** [type(video)]: the two classes of the registry, or any other class. *)
Inductive media_type : Type :=
| Episode
| Movie
| OtherMedia (class_name : string).

(** A video object: its class, the name every video is built with, and
    its other attributes by name. An attribute missing from the map is an
    attribute the object does not have. *)
Record video : Type := {
  media : media_type;
  name : string;
  attrs : gmap string value
}.

(** [getattr(video, attr, None)]. *)
Definition getattr_default (v : video) (attr : string) : value :=
  default VNone (attrs v !! attr).

(** [video.attr]. *)
Definition getattr (v : video) (attr : string) : result value :=
  match attrs v !! attr with
  | Some x => Ok x
  | None => Raise (AttributeError attr)
  end.

(** [setattr(video, attr, x)]. *)
Definition setattr (v : video) (attr : string) (x : value) : video :=
  {| media := media v; name := name v; attrs := <[attr := x]> (attrs v) |}.

(** ** The world: cache, log and HTTP exchange *)

Record request : Type := {
  req_url : string;
  req_params : gmap string string
}.

(** The state outside the video: the keyed cache, the records handed to
    the logger (message and arguments, oldest first) and the requests sent
    so far. *)
Record world : Type := {
  cache : gmap string value;
  log : list (string * list value);
  sent : list request
}.

Definition M (A : Type) : Type := world -> result A * world.

Definition ret {A} (a : A) : M A := fun w => (Ok a, w).

Definition bind {A B} (c : M A) (k : A -> M B) : M B :=
  fun w => match c w with
           | (Ok a, w') => k a w'
           | (Raise e, w') => (Raise e, w')
           end.

Definition lift {A} (r : result A) : M A := fun w => (r, w).

Definition rbind {A B} (r : result A) (k : A -> result B) : result B :=
  match r with
  | Ok a => k a
  | Raise e => Raise e
  end.

Notation "x <- c ;; k" := (bind c (fun x => k))
  (at level 100, c at next level, right associativity).
Notation "c ;;; k" := (bind c (fun _ => k))
  (at level 100, right associativity).
Notation "'try' x := r 'in' k" := (rbind r (fun x => k))
  (at level 100, x name, r at next level, right associativity).

(** [logger.debug(msg, *args)]. *)
Definition debug (msg : string) (args : list value) : M unit :=
  fun w => (Ok tt, {| cache := cache w; log := log w ++ [(msg, args)]; sent := sent w |}).

(** The first item of a loop [for x in l: if p(x): return ...]. *)
Fixpoint first_match (p : value -> result bool) (l : list value)
  : result (option value) :=
  match l with
  | [] => Ok None
  | x :: l' =>
      match p x with
      | Raise e => Raise e
      | Ok true => Ok (Some x)
      | Ok false => first_match p l'
      end
  end.

(** ** The keyed cache *)

(** Modelled from the spec: the cache region ([region], imported from
    subliminal) is not part of the module. The spec describes it as an
    external keyed cache with manual invalidation, which memoizes a fetch
    under the key its key generator gives and keeps a result only when
    [should_cache_fn] accepts it. A memoized call returns the entry under
    its key when there is one and runs the fetch otherwise. *)
Definition cache_on_arguments (should_cache_fn : value -> bool) (key : string)
    (fn : M value) : M value :=
  fun w =>
    match cache w !! key with
    | Some x => (Ok x, w)
    | None =>
        match fn w with
        | (Ok x, w') =>
            (Ok x,
             if should_cache_fn x
             then {| cache := <[key := x]> (cache w'); log := log w'; sent := sent w' |}
             else w')
        | (Raise e, w') => (Raise e, w')
        end
    end.

(** Modelled from the spec: [refresh] of a memoized call, the manual
    invalidation of the cache. It runs the fetch whatever the cache holds;
    the entry under the key is invalidated and the fresh result takes its
    place when [should_cache_fn] accepts it. *)
Definition refresh (should_cache_fn : value -> bool) (key : string)
    (fn : M value) : M value :=
  fun w =>
    match fn w with
    | (Ok x, w') =>
        (Ok x,
         {| cache := if should_cache_fn x then <[key := x]> (cache w')
                     else delete key (cache w');
            log := log w'; sent := sent w' |})
    | (Raise e, w') => (Raise e, w')
    end.

Definition sonarr_series_cache_key {A} (namespace fn : string) : list A -> string :=
  fun arg => "sonarr_series".

Definition radarr_movies_cache_key {A} (namespace fn : string) : list A -> string :=
  fun arg => "radarr_movies".

(** ** The API clients *)

Inductive client_class : Type :=
| SonarrClient
| RadarrClient.

(** A client object: its class, [api_url] and what [__init__] put on the
    session. *)
Record client : Type := {
  class_of : client_class;
  api_url : option string;
  session_headers : list (string * value);
  session_timeout : Z
}.

(** The keyword arguments a client is built from, as they sit under a
    configuration entry. [None] stands for a keyword that is not given. *)
Record kwargs : Type := {
  kw_headers : option (list (string * value));
  kw_timeout : option Z;
  kw_base_url : option string;
  kw_api_key : option value
}.

Definition needs_attrs_to_work (cls : client_class) : list string :=
  match cls with
  | SonarrClient => ["series"; "season"; "episode"]
  | RadarrClient => ["title"]
  end.

Definition _fill_attrs (cls : client_class) : list string :=
  match cls with
  | SonarrClient => ["release_group"; "format"]
  | RadarrClient => ["release_group"; "format"]
  end.

Definition cfg_name (cls : client_class) : string :=
  match cls with
  | SonarrClient => "sonarr"
  | RadarrClient => "radarr"
  end.

(** [key.split('_')[0] + ''.join(x.capitalize() for x in key.split('_')[1:])] *)
Definition camel_case (key : string) : string :=
  match split "_" key with
  | [] => ""
  | first :: others => first ++ join (map capitalize others)
  end.

(** [DroneAPIClient.build_params]; the items of [params] come in the
    order in which the dict is iterated. *)
Fixpoint build_params_from (out : gmap string string) (params : list (string * param))
  : gmap string string :=
  match params with
  | [] => out
  | (key, value) :: params' =>
      let value :=
        if negb (is_string value) then py_str value
        else match value with
             | PUnicode u => encode_utf8 u
             | PStr s => s
             | _ => py_str value
             end in
      build_params_from (<[camel_case key := quote value]> out) params'
  end.

Definition build_params (params : list (string * param)) : gmap string string :=
  build_params_from ∅ params.

(** ** A sample installation

    Concrete collaborators, services and videos on which the module is
    run in the examples below. *)
Module Sample.

Definition guessit (guess_from : string) (hints : list (string * value))
  : gmap string value :=
  {[ "release_group" := VStr "GRP"; "title" := VStr guess_from ]}.

(** A pattern that removes nothing. *)
Definition remove_crap (s : string) : string := s.

(** Joining a base that ends in a slash with a relative path. *)
Definition urljoin (base url : string) : string := base ++ url.

Definition repr (v : value) : string := "[...]".

Definition show1 : value :=
  VDict [("id", VInt 7); ("title", VStr "Show One"); ("tvdbId", VInt 1001)].
Definition show2 : value :=
  VDict [("id", VInt 8); ("title", VStr "Show Two"); ("tvdbId", VInt 1002)].

Definition episode1 : value :=
  VDict [("seasonNumber", VInt 1); ("episodeNumber", VInt 2);
         ("episodeFile", VDict [("sceneName", VStr "Show.Two.S01E02.720p-GRP")])].
Definition episode2 : value :=
  VDict [("seasonNumber", VInt 1); ("episodeNumber", VInt 3)].

Definition movie1 : value :=
  VDict [("id", VInt 1); ("title", VStr "Other Title"); ("imdbId", VStr "tt0000001");
         ("movieFile", VDict [("relativePath", VStr "Film.mkv");
                              ("releaseGroup", VStr "GRP")])].
Definition movie2 : value :=
  VDict [("id", VInt 2); ("title", VStr "Film"); ("imdbId", VStr "tt0000002");
         ("movieFile", VDict [("relativePath", VStr "Film.2000.mkv");
                              ("sceneName", VStr "Film.2000.1080p-ABC");
                              ("releaseGroup", VStr "ABC")])].

(** A service that knows two shows and two movies. *)
Definition transport (before : list request) (rq : request) : result value :=
  if String.eqb (req_url rq) "http://sonarr/api/series" then Ok (VList [show1; show2])
  else if String.eqb (req_url rq) "http://sonarr/api/episode" then
         Ok (VList [episode2; episode1])
  else if String.eqb (req_url rq) "http://radarr/api/movie" then Ok (VList [movie1; movie2])
  else Raise RequestException.

Definition cfg : gmap string kwargs :=
  {[ "sonarr" := {| kw_headers := None; kw_timeout := None;
                    kw_base_url := Some "http://sonarr"; kw_api_key := Some (VStr "k1") |};
     "radarr" := {| kw_headers := None; kw_timeout := None;
                    kw_base_url := Some "http://radarr/"; kw_api_key := Some (VStr "k2") |} ]}.

Definition sonarr : client :=
  {| class_of := SonarrClient; api_url := Some "http://sonarr/api/";
     session_headers := [("X-Api-Key", VStr "k1")]; session_timeout := 10 |}.

Definition radarr : client :=
  {| class_of := RadarrClient; api_url := Some "http://radarr/api/";
     session_headers := [("X-Api-Key", VStr "k2")]; session_timeout := 10 |}.

Definition empty_world : world := {| cache := ∅; log := []; sent := [] |}.

(** A world whose cache already holds a list of series. *)
Definition cached_world : world :=
  {| cache := {[ "sonarr_series" := VList [show2] ]}; log := []; sent := [] |}.

Definition episode_video : video :=
  {| media := Episode; name := "/tv/Show Two/s01e02.mkv";
     attrs := {[ "series" := VStr "Show Two"; "season" := VInt 1; "episode" := VInt 2;
                 "series_tvdb_id" := VNone; "title" := VNone;
                 "release_group" := VNone; "format" := VNone ]} |}.

Definition movie_video : video :=
  {| media := Movie; name := "/movies/Film (2000)/Film.mkv";
     attrs := {[ "title" := VStr "Film"; "imdb_id" := VNone;
                 "release_group" := VNone; "format" := VNone ]} |}.

(** A movie known to the service only by the path of its file. *)
Definition renamed_movie_video : video :=
  {| media := Movie; name := "/movies/Film (2000)/Film.mkv";
     attrs := {[ "title" := VStr "Le Film"; "imdb_id" := VNone;
                 "release_group" := VNone; "format" := VNone ]} |}.

(** A movie the service knows by its title, without a scene name. *)
Definition other_movie_video : video :=
  {| media := Movie; name := "/movies/Other Title (1999)/Other.mkv";
     attrs := {[ "title" := VStr "Other Title"; "imdb_id" := VNone;
                 "release_group" := VNone; "format" := VNone ]} |}.

(** An episode of a show the service does not know. *)
Definition unknown_video : video :=
  {| media := Episode; name := "/tv/Show Three/s01e01.mkv";
     attrs := {[ "series" := VStr "Show Three"; "season" := VInt 1; "episode" := VInt 1;
                 "series_tvdb_id" := VNone; "title" := VNone;
                 "release_group" := VNone; "format" := VNone ]} |}.

Definition subtitle_video : video :=
  {| media := OtherMedia "Video"; name := "/misc/clip.mkv";
     attrs := {[ "release_group" := VNone; "format" := VNone ]} |}.

(** A guess that finds nothing. *)
Definition blind_guessit (guess_from : string) (hints : list (string * value))
  : gmap string value := ∅.

(** Records with a number where a name is expected. *)
Definition odd_episode : value :=
  VDict [("seasonNumber", VInt 1); ("episodeNumber", VInt 2);
         ("episodeFile", VDict [("sceneName", VInt 5)])].

Definition odd_movie : value :=
  VDict [("id", VInt 3); ("title", VStr "Odd");
         ("movieFile", VDict [("relativePath", VStr "Odd.mkv");
                              ("sceneName", VStr "Odd.1999.720p");
                              ("releaseGroup", VInt 5)])].

(** A service that answers with those records. *)
Definition odd_transport (before : list request) (rq : request) : result value :=
  if String.eqb (req_url rq) "http://sonarr/api/series" then Ok (VList [show2])
  else if String.eqb (req_url rq) "http://sonarr/api/episode" then Ok (VList [odd_episode])
  else if String.eqb (req_url rq) "http://radarr/api/movie" then Ok (VList [odd_movie])
  else Raise RequestException.

Definition odd_movie_video : video :=
  {| media := Movie; name := "/movies/Odd (1999)/Odd.mkv";
     attrs := {[ "title" := VStr "Odd"; "imdb_id" := VNone;
                 "release_group" := VNone; "format" := VNone ]} |}.

(** A world whose cache holds a list of movies. *)
Definition cached_movies_world : world :=
  {| cache := {[ "radarr_movies" := VList [movie2] ]}; log := []; sent := [] |}.

(** A world whose cached list of series starts with a record without a
    title. *)
Definition broken_world : world :=
  {| cache := {[ "sonarr_series" := VList [VDict [("id", VInt 1)]; show2] ]};
     log := []; sent := [] |}.

(** A configuration that points Sonarr at a host that does not
    answer. *)
Definition down_cfg : gmap string kwargs :=
  {[ "sonarr" := {| kw_headers := None; kw_timeout := None;
                    kw_base_url := Some "http://down"; kw_api_key := None |} ]}.

Definition down : client :=
  {| class_of := SonarrClient; api_url := Some "http://down/api/";
     session_headers := [("X-Api-Key", VNone)]; session_timeout := 10 |}.

End Sample.

(** The code points of a text value, for a value passed on as a
    parameter. *)
Fixpoint code_points (s : string) : list N :=
  match s with
  | EmptyString => []
  | String a s' => N_of_ascii a :: code_points s'
  end.

Section Drone.

Set Default Proof Using "Type".

(** The collaborators outside the module. *)

(** [guessit(name, options=hints)]: the result as a map from property to
    value. *)
Variable guessit : string -> list (string * value) -> gmap string value.

(** [REMOVE_CRAP_FROM_FILENAME.sub("", s)], a pattern of
    subliminal_patch.core. *)
Variable remove_crap : string -> string.

(** [urljoin(base, url)] for a base that is a string. *)
Variable urljoin : string -> string -> string.

(** The service behind the session: what [session.get], [raise_for_status]
    and [r.json()] make of a request, given the requests sent before. *)
Variable transport : list request -> request -> result value.

(** [str(v)] of a list or a dict. *)
Variable repr : value -> string.

(** A value passed as a keyword argument of [get]. The text of a JSON
    document is unicode. *)
Definition param_of_value (v : value) : param :=
  match v with
  | VNone => PNone
  | VBool b => PBool b
  | VInt z => PInt z
  | VStr s => PUnicode (code_points s)
  | VList _ | VDict _ => PObject (repr v)
  end.

(** [DroneAPIClient.__init__] *)
Definition DroneAPIClient_init (cls : client_class) (headers : option (list (string * value)))
    (timeout : option Z) (base_url : option string) (api_key : option value)
  : result client :=
  let headers := items_set "X-Api-Key" (default VNone api_key) (default [] headers) in
  match base_url with
  | None => Raise (AttributeError "endswith")
  | Some base_url =>
      let base_url := if negb (endswith base_url "/") then base_url ++ "/" else base_url in
      Ok {| class_of := cls;
            api_url := if negb (endswith base_url "api/")
                       then Some (urljoin base_url "api/") else None;
            session_headers := headers;
            session_timeout := default 10 timeout |}
  end.

Definition SonarrClient_init (kw : kwargs) : result client :=
  DroneAPIClient_init SonarrClient (kw_headers kw) (kw_timeout kw)
    (Some (default "http://127.0.0.1:8989/" (kw_base_url kw))) (kw_api_key kw).

Definition RadarrClient_init (kw : kwargs) : result client :=
  DroneAPIClient_init RadarrClient (kw_headers kw) (kw_timeout kw)
    (Some (default "http://127.0.0.1:7878/" (kw_base_url kw))) (kw_api_key kw).

(** [self.session.get(url, params=params)], [raise_for_status()] and
    [r.json()]. *)
Definition session_get (url : string) (params : gmap string string) : M value :=
  fun w =>
    let rq := {| req_url := url; req_params := params |} in
    (transport (sent w) rq,
     {| cache := cache w; log := log w; sent := sent w ++ [rq] |}).

(** [DroneAPIClient.get] *)
Definition get (self : client) (endpoint : string) (params : list (string * param))
  : M value :=
  let url := match api_url self with
             | Some base => urljoin base endpoint
             | None => endpoint
             end in
  let params := build_params params in
  j <- session_get url params ;;
  if truthy j then ret j else ret (VList []).

(** [DroneAPIClient.update_video]: the loop over [_fill_attrs]. *)
Fixpoint fill_from_guess (fill : list string) (guess : gmap string value) (v : video)
  : M video :=
  match fill with
  | [] => ret v
  | attr :: fill' =>
      match guess !! attr with
      | Some value =>
          debug "%s: Filling attribute %s: %s" [VStr (name v); VStr attr; value] ;;;
          fill_from_guess fill' guess (setattr v attr value)
      | None => fill_from_guess fill' guess v
      end
  end.

(** [SonarrClient.get_guess] and [RadarrClient.get_guess] *)
Definition get_guess (self : client) (v : video) (scene_name : value)
  : result (string * gmap string value) :=
  let ext := snd (splitext (name v)) in
  match scene_name with
  | VStr scene_name =>
      let guess_from := remove_crap (scene_name ++ ext) in
      let hints := [("single_value", VBool true);
                    ("type", VStr match class_of self with
                                  | SonarrClient => "episode"
                                  | RadarrClient => "movie"
                                  end)] in
      Ok (guess_from, guessit guess_from hints)
  | _ => Raise TypeError
  end.

(** [DroneAPIClient.update_video] *)
Definition update_video (self : client) (v : video) (scene_name : value) : M video :=
  g <- lift (get_guess self v scene_name) ;;
  let '(scene_fn, guess) := g in
  v <- fill_from_guess (_fill_attrs (class_of self)) guess v ;;
  ret (setattr v "original_name" (VStr scene_fn)).

(** The first loop of [get_additional_data]: is one of the attributes the
    client needs None or absent? *)
Definition lacks_attr (self : client) (v : video) : bool :=
  existsb (fun attr => is_None (getattr_default v attr))
          (needs_attrs_to_work (class_of self)).

(** *** Sonarr *)

(** [SonarrClient.get_all_series] *)
Definition get_all_series_fetch (self : client) : M value := get self "series" [].

Definition get_all_series (self : client) : M value :=
  cache_on_arguments truthy (sonarr_series_cache_key "" "get_all_series" [self])
    (get_all_series_fetch self).

Definition get_all_series_refresh (self : client) : M value :=
  refresh truthy (sonarr_series_cache_key "" "get_all_series" [self])
    (get_all_series_fetch self).

(** [is_correct_show] of [SonarrClient.get_show_id]: the truth of the
    expression it returns. *)
Definition is_correct_show (v : video) (s : value) : result bool :=
  try title := subscript s "title" in
  try series := getattr v "series" in
  if py_eq title series then Ok true
  else
    try series_tvdb_id := getattr v "series_tvdb_id" in
    if negb (truthy series_tvdb_id) then Ok false
    else
      try has := contains s "tvdbId" in
      if negb has then Ok false
      else
        try tvdbId := subscript s "tvdbId" in
        Ok (py_eq tvdbId series_tvdb_id).

(** [SonarrClient.get_show_id]; falling off the end returns None. *)
Definition get_show_id (self : client) (v : video) : M value :=
  series <- get_all_series self ;;
  shows <- lift (py_iter series) ;;
  found <- lift (first_match (is_correct_show v) shows) ;;
  match found with
  | Some show => lift (subscript show "id")
  | None =>
      series <- lift (getattr v "series") ;;
      debug "%s: Show not found, refreshing cache: %s" [VStr (name v); series] ;;;
      series <- get_all_series_refresh self ;;
      shows <- lift (py_iter series) ;;
      found <- lift (first_match (is_correct_show v) shows) ;;
      match found with
      | Some show => lift (subscript show "id")
      | None => ret VNone
      end
  end.

(** The test of the episode loop of [SonarrClient.get_additional_data]. *)
Definition is_episode (v : video) (episode : value) : result bool :=
  try seasonNumber := subscript episode "seasonNumber" in
  try season := getattr v "season" in
  if negb (py_eq seasonNumber season) then Ok false
  else
    try episodeNumber := subscript episode "episodeNumber" in
    try number := getattr v "episode" in
    Ok (py_eq episodeNumber number).

(** [SonarrClient.get_additional_data] *)
Definition Sonarr_get_additional_data (self : client) (v : video) : M value :=
  if lacks_attr self v then
    debug "%s: Not enough data available for Sonarr" [VStr (name v)] ;;;
    ret VNone
  else
    found_show_id <- get_show_id self v ;;
    if negb (truthy found_show_id) then
      series <- lift (getattr v "series") ;;
      debug "%s: Show not found in Sonarr: %s" [VStr (name v); series] ;;;
      ret VNone
    else
      episodes <- get self "episode" [("series_id", param_of_value found_show_id)] ;;
      episodes <- lift (py_iter episodes) ;;
      found <- lift (first_match (is_episode v) episodes) ;;
      match found with
      | Some episode =>
          episodeFile <- lift (dict_get episode "episodeFile" (VDict [])) ;;
          scene_name <- lift (dict_get episodeFile "sceneName" VNone) ;;
          if truthy scene_name then
            debug "%s: Got original filename from Sonarr: %s" [VStr (name v); scene_name] ;;;
            ret (VDict [("scene_name", scene_name)])
          else
            debug "%s: Can't get original filename, sceneName-attribute not set"
                  [VStr (name v)] ;;;
            ret VNone
      | None =>
          season <- lift (getattr v "season") ;;
          number <- lift (getattr v "episode") ;;
          debug "%s: Episode not found in Sonarr: S%02dE%02d" [VStr (name v); season; number] ;;;
          ret VNone
      end.

(** *** Radarr *)

(** [RadarrClient.get_all_movies] *)
Definition get_all_movies_fetch (self : client) : M value := get self "movie" [].

Definition get_all_movies (self : client) : M value :=
  cache_on_arguments truthy (radarr_movies_cache_key "" "get_all_movies" [self])
    (get_all_movies_fetch self).

Definition get_all_movies_refresh (self : client) : M value :=
  refresh truthy (radarr_movies_cache_key "" "get_all_movies" [self])
    (get_all_movies_fetch self).

(** [is_correct_movie] of [RadarrClient.get_movie]: [m] when the movie
    is the right one, None otherwise. The [movie] it reads from the
    enclosing loop is the [m] it is called with. *)
Definition is_correct_movie (v : video) (movie_fn : string) (m : value) : result value :=
  try movie_file := dict_get m "movieFile" (VDict []) in
  try title := subscript m "title" in
  try video_title := getattr v "title" in
  if py_eq title video_title then Ok m
  else
    try imdb_id := getattr v "imdb_id" in
    try by_id :=
      (if negb (truthy imdb_id) then Ok false
       else
         try has := contains m "imdbId" in
         if negb has then Ok false
         else
           try imdbId := subscript m "imdbId" in
           Ok (py_eq imdbId imdb_id)) in
    if by_id then Ok m
    else
      try relativePath := dict_get movie_file "relativePath" VNone in
      if py_eq relativePath (VStr movie_fn) then Ok m else Ok VNone.

Definition is_movie (v : video) (movie_fn : string) (m : value) : result bool :=
  try r := is_correct_movie v movie_fn m in Ok (truthy r).

(** [RadarrClient.get_movie]; falling off the end returns None. *)
Definition get_movie (self : client) (v : video) : M value :=
  let movie_fn := basename (name v) in
  movies <- get_all_movies self ;;
  movies <- lift (py_iter movies) ;;
  found <- lift (first_match (is_movie v movie_fn) movies) ;;
  match found with
  | Some movie => ret movie
  | None =>
      debug "%s: Movie not found, refreshing cache" [VStr (name v)] ;;;
      movies <- get_all_movies_refresh self ;;
      movies <- lift (py_iter movies) ;;
      found <- lift (first_match (is_movie v movie_fn) movies) ;;
      match found with
      | Some movie => ret movie
      | None => ret VNone
      end
  end.

(** [RadarrClient.get_additional_data] *)
Definition Radarr_get_additional_data (self : client) (v : video) : M value :=
  if lacks_attr self v then
    debug "%s: Not enough data available for Radarr" [] ;;;
    ret VNone
  else
    movie <- get_movie self v ;;
    if negb (truthy movie) then
      debug "%s: Movie not found" [VStr (name v)] ;;;
      ret VNone
    else
      movie_file <- lift (dict_get movie "movieFile" (VDict [])) ;;
      scene_name <- lift (dict_get movie_file "sceneName" VNone) ;;
      release_group <- lift (dict_get movie_file "releaseGroup" VNone) ;;
      let additional_data := [] in
      additional_data <-
        (if truthy scene_name then
           debug "%s: Got original filename from Radarr: %s" [VStr (name v); scene_name] ;;;
           ret (items_set "scene_name" scene_name additional_data)
         else ret additional_data) ;;
      additional_data <-
        (if truthy release_group then
           debug "%s: Got release group from Radarr: %s" [VStr (name v); release_group] ;;;
           ret (items_set "release_group" release_group additional_data)
         else ret additional_data) ;;
      ret (VDict additional_data).

Definition get_additional_data (self : client) (v : video) : M value :=
  match class_of self with
  | SonarrClient => Sonarr_get_additional_data self v
  | RadarrClient => Radarr_get_additional_data self v
  end.

(** ** The dispatcher *)

(** [DroneManager.registry] *)
Definition registry (t : media_type) : option client_class :=
  match t with
  | Episode => Some SonarrClient
  | Movie => Some RadarrClient
  | OtherMedia _ => None
  end.

Definition type_name (t : media_type) : string :=
  match t with
  | Episode => "Episode"
  | Movie => "Movie"
  | OtherMedia class_name => class_name
  end.

(** [DroneManager.get_client] *)
Definition get_client (v : video) (cfg_kwa : gmap string kwargs) : result client :=
  let media_type := media v in
  match registry media_type with
  | None => Raise (NotImplementedError (type_name media_type))
  | Some client_cls =>
      match cfg_kwa !! cfg_name client_cls with
      | None => Raise (KeyError (cfg_name client_cls))
      | Some kw =>
          match client_cls with
          | SonarrClient => SonarrClient_init kw
          | RadarrClient => RadarrClient_init kw
          end
      end
  end.

(** ** refine *)

(** The step of [refine] on the scene name: [update_video] when the data
    has one. *)
Definition fill_scene_name (self : client) (v : video) (additional_data : value)
  : M video :=
  has <- lift (contains additional_data "scene_name") ;;
  if has then
    scene_name <- lift (subscript additional_data "scene_name") ;;
    update_video self v scene_name
  else ret v.

(** The last statement of [refine]: the release group of the data goes
    onto a video that has none. *)
Definition fill_release_group (v : video) (additional_data : value) : result video :=
  try has := contains additional_data "release_group" in
  if negb has then Ok v
  else
    try release_group := getattr v "release_group" in
    if truthy release_group then Ok v
    else
      try given := subscript additional_data "release_group" in
      match given with
      | VStr given => Ok (setattr v "release_group" (VStr (remove_crap given)))
      | _ => Raise TypeError
      end.

(** [refine(video, **kwargs)]: how the call ends, the video and the world
    it leaves. *)
Definition refine (v : video) (kwargs : gmap string kwargs) (w : world)
  : result unit * video * world :=
  match get_client v kwargs with
  | Raise e => (Raise e, v, w)
  | Ok client =>
      match get_additional_data client v w with
      | (Raise e, w) => (Raise e, v, w)
      | (Ok additional_data, w) =>
          if truthy additional_data then
            match fill_scene_name client v additional_data w with
            | (Raise e, w) => (Raise e, v, w)
            | (Ok v, w) =>
                match fill_release_group v additional_data with
                | Raise e => (Raise e, v, w)
                | Ok v => (Ok tt, v, w)
                end
            end
          else (Ok tt, v, w)
      end
  end.

(** ** The claims of the lookup

    The byte string [build_params] is said to quote: [str()] of what is not
    a string, the UTF-8 bytes of a unicode string, a byte string as it is. *)
Definition byte_string_of (value : param) : string :=
  match value with
  | PStr s => s
  | PUnicode u => encode_utf8 u
  | _ => py_str value
  end.

(** Two videos that differ at most in the attributes [keys]. *)
Definition same_but (keys : list string) (v v' : video) : Prop :=
  media v' = media v /\ name v' = name v /\
  forall attr, attr ∉ keys -> attrs v' !! attr = attrs v !! attr.

(** What a call leaves of the world outside the log. *)
Definition quiet (w w' : world) : Prop :=
  cache w' = cache w /\ sent w' = sent w.

(** *** Matching a record by identity *)

(** A show record: a JSON object with a title. *)
Definition show_record (s : value) : bool :=
  match s with
  | VDict d => items_has "title" d
  | _ => false
  end.

(** A movie record: a JSON object with a title whose [movieFile], when
    it has one, is an object. *)
Definition movie_record (m : value) : bool :=
  match m with
  | VDict d =>
      items_has "title" d &&
      match items_get "movieFile" d with
      | Some (VDict _) | None => true
      | Some _ => false
      end
  | _ => false
  end.

Definition field_is (d : list (string * value)) (k : string) (x : value) : bool :=
  match items_get k d with
  | Some y => py_eq y x
  | None => false
  end.

(** The show is the video's: same title as the series, or the TVDB id
    the video carries. *)
Definition show_matches (series series_tvdb_id : value) (s : value) : bool :=
  match s with
  | VDict d =>
      field_is d "title" series
      || (truthy series_tvdb_id && field_is d "tvdbId" series_tvdb_id)
  | _ => false
  end.

(** The movie is the video's by title or by the IMDB id the video
    carries. *)
Definition identity_matches (title imdb_id : value) (m : value) : bool :=
  match m with
  | VDict d =>
      field_is d "title" title || (truthy imdb_id && field_is d "imdbId" imdb_id)
  | _ => false
  end.

(** The path of the movie's file, relative to the movie's folder, is the
    file name of the video. *)
Definition path_matches (movie_fn : string) (m : value) : bool :=
  match m with
  | VDict d =>
      match items_get "movieFile" d with
      | Some (VDict movie_file) => field_is movie_file "relativePath" (VStr movie_fn)
      | _ => false
      end
  | _ => false
  end.

(** The movie is the video's: by title, by IMDB id, or by the path of
    its file. *)
Definition movie_matches (title imdb_id : value) (movie_fn : string) (m : value) : bool :=
  identity_matches title imdb_id m || path_matches movie_fn m.

(** The world after [logger.debug(msg, *args)]. *)
Definition logged (msg : string) (args : list value) (w : world) : world :=
  (debug msg args w).2.

(** The lookup of a movie as C1 words it: the first cached movie that
    matches by title or id or, when there is none, the first such movie of
    the refreshed list, or nothing. *)
Definition claimed_get_movie (self : client) (v : video) (w : world) : Prop :=
  forall title imdb_id cached movies w1,
    attrs v !! "title" = Some title ->
    attrs v !! "imdb_id" = Some imdb_id ->
    get_all_movies self w = (Ok cached, w1) ->
    py_iter cached = Ok movies ->
    match find (identity_matches title imdb_id) movies with
    | Some m => get_movie self v w = (Ok m, w1)
    | None =>
        forall fresh movies' w2,
          get_all_movies_refresh self
            (logged "%s: Movie not found, refreshing cache" [VStr (name v)] w1)
          = (Ok fresh, w2) ->
          py_iter fresh = Ok movies' ->
          get_movie self v w
          = (Ok (default VNone (find (identity_matches title imdb_id) movies')), w2)
    end.

(** The skipping of a movie without a scene name as C3 words it: when
    the movie found carries no scene name, [refine] leaves the video as it
    was. *)
Definition claimed_skip_without_scene_name (v : video) (kwargs : gmap string kwargs)
    (w : world) : Prop :=
  forall self movie w1 movie_file scene_name,
    get_client v kwargs = Ok self ->
    class_of self = RadarrClient ->
    get_movie self v w = (Ok movie, w1) ->
    truthy movie = true ->
    dict_get movie "movieFile" (VDict []) = Ok movie_file ->
    dict_get movie_file "sceneName" VNone = Ok scene_name ->
    truthy scene_name = false ->
    (refine v kwargs w).1.2 = v.

(** The cases in which the service has nothing for the video, with the
    world [w1] the lookups leave and whether the case is logged:
    an attribute the client needs is missing; the show, the episode or the
    movie is not found; the episode found has no scene name; the movie
    found has neither a scene name nor a release group. *)
Inductive no_data (self : client) (v : video) (w : world) : world -> bool -> Prop :=
| no_data_attr :
    lacks_attr self v = true ->
    no_data self v w w true
| no_data_show found_show_id w1 :
    class_of self = SonarrClient ->
    lacks_attr self v = false ->
    get_show_id self v w = (Ok found_show_id, w1) ->
    truthy found_show_id = false ->
    no_data self v w w1 true
| no_data_episode found_show_id w1 fetched episodes w2 :
    class_of self = SonarrClient ->
    lacks_attr self v = false ->
    get_show_id self v w = (Ok found_show_id, w1) ->
    truthy found_show_id = true ->
    get self "episode" [("series_id", param_of_value found_show_id)] w1
    = (Ok fetched, w2) ->
    py_iter fetched = Ok episodes ->
    Forall (fun episode => is_episode v episode = Ok false) episodes ->
    no_data self v w w2 true
| no_data_scene_name found_show_id w1 fetched episodes w2 episode episodeFile scene_name :
    class_of self = SonarrClient ->
    lacks_attr self v = false ->
    get_show_id self v w = (Ok found_show_id, w1) ->
    truthy found_show_id = true ->
    get self "episode" [("series_id", param_of_value found_show_id)] w1
    = (Ok fetched, w2) ->
    py_iter fetched = Ok episodes ->
    first_match (is_episode v) episodes = Ok (Some episode) ->
    dict_get episode "episodeFile" (VDict []) = Ok episodeFile ->
    dict_get episodeFile "sceneName" VNone = Ok scene_name ->
    truthy scene_name = false ->
    no_data self v w w2 true
| no_data_movie movie w1 :
    class_of self = RadarrClient ->
    lacks_attr self v = false ->
    get_movie self v w = (Ok movie, w1) ->
    truthy movie = false ->
    no_data self v w w1 true
| no_data_movie_file movie w1 movie_file scene_name release_group :
    class_of self = RadarrClient ->
    lacks_attr self v = false ->
    get_movie self v w = (Ok movie, w1) ->
    truthy movie = true ->
    dict_get movie "movieFile" (VDict []) = Ok movie_file ->
    dict_get movie_file "sceneName" VNone = Ok scene_name ->
    truthy scene_name = false ->
    dict_get movie_file "releaseGroup" VNone = Ok release_group ->
    truthy release_group = false ->
    no_data self v w w1 false.

(** The cache holds the same under every key but [key]. *)
Definition off_key (key : string) (w w' : world) : Prop :=
  forall k, k <> key -> cache w' !! k = cache w !! k.

(** Whatever it returns, the computation takes a world to one related to
    it by [R]. *)
Definition preserves {A} (R : world -> world -> Prop) (c : M A) : Prop :=
  forall w, R w (c w).2.

(** *** Further vocabulary for the properties *)

(** Every character of the string passes the test. *)
Fixpoint string_forall (p : ascii -> bool) (s : string) : bool :=
  match s with
  | EmptyString => true
  | String a s' => p a && string_forall p s'
  end.

Definition not_underscore (a : ascii) : bool := negb (Ascii.eqb a "_").

(** The characters [quote] leaves as they are. *)
Definition safe_char (a : ascii) : bool := always_safe a || Ascii.eqb a "/".

(** The characters a quoted string is made of. *)
Definition quoted_char (a : ascii) : bool := safe_char a || Ascii.eqb a "%".

Definition unhex (a : ascii) : N :=
  let n := N_of_ascii a in (if n <? 58 then n - 48 else n - 55)%N.

(** The byte the head of a quoted string stands for, and what follows
    it. *)
Definition unquote_head (s : string) : option (ascii * string) :=
  match s with
  | EmptyString => None
  | String a r =>
      if Ascii.eqb a "%" then
        match r with
        | String h1 (String h2 r') => Some (ascii_of_N (16 * unhex h1 + unhex h2), r')
        | _ => None
        end
      else Some (a, r)
  end.

(** Whatever it returns, the computation only adds to the requests
    sent, and at most [n] of them. *)
Definition sends {A} (n : nat) (c : M A) : Prop :=
  forall w, exists l, sent (c w).2 = (sent w ++ l)%list /\ (length l <= n)%nat.

(** * Properties *)

(** Proofs about one part of the module do without the collaborators
    that part does not call. *)
Ltac unused_collaborators :=
  try clear transport; try clear repr; try clear urljoin;
  try clear remove_crap; try clear guessit.

(** ** Strings and parameters *)

Lemma rev_app_append (s1 s2 acc : string) :
  String.rev_app (s1 ++ s2) acc = String.rev_app s2 (String.rev_app s1 acc).
Proof.
  revert acc. induction s1 as [|a s1 IH]; intros acc; [reflexivity|].
  cbn. apply IH.
Qed.

Lemma rev_slash (s : string) : String.rev (s ++ "/") = String "/" (String.rev s).
Proof. unfold String.rev. rewrite rev_app_append. reflexivity. Qed.

Lemma prefix_cons (a b : ascii) (p s : string) :
  String.prefix (String a p) (String b s) = Ascii.eqb a b && String.prefix p s.
Proof.
  cbn. destruct (ascii_dec a b) as [->|Hne].
  - rewrite Ascii.eqb_refl. reflexivity.
  - apply Ascii.eqb_neq in Hne. rewrite Hne. reflexivity.
Qed.

Lemma endswith_slash_appended (s : string) : endswith (s ++ "/") "/" = true.
Proof.
  unfold endswith. rewrite rev_slash. change (String.rev "/") with "/".
  rewrite prefix_cons. cbn. destruct (String.rev s); reflexivity.
Qed.

Lemma endswith_api_slash (s : string) :
  endswith s "api/" = true -> endswith s "/" = true.
Proof.
  unfold endswith. change (String.rev "api/") with "/ipa".
  change (String.rev "/") with "/".
  destruct (String.rev s) as [|b r]; [discriminate|].
  rewrite !prefix_cons. intros [-> _]%andb_true_iff. destruct r; reflexivity.
Qed.

Lemma split_cons (sep : ascii) (s : string) :
  exists first others, split sep s = first :: others.
Proof.
  induction s as [|a s IH]; cbn; [eauto|].
  destruct (Ascii.eqb a sep); [eauto|].
  destruct IH as (h & t & ->). eauto.
Qed.

Lemma build_params_from_keeps (params : list (string * param))
    (out : gmap string string) (k : string) :
  is_Some (out !! k) -> is_Some (build_params_from out params !! k).
Proof.
  revert out. induction params as [|[key value] params IH]; intros out Hk; [exact Hk|].
  cbn. apply IH. rewrite lookup_insert. case_decide; eauto.
Qed.

Lemma build_params_from_other (params : list (string * param))
    (out : gmap string string) (k : string) :
  k ∉ map (fun kv => camel_case kv.1) params ->
  build_params_from out params !! k = out !! k.
Proof.
  revert out. induction params as [|[key value] params IH]; intros out Hk; [reflexivity|].
  cbn in *. apply not_elem_of_cons in Hk as [Hne Hk].
  rewrite IH by exact Hk. rewrite lookup_insert_ne; congruence.
Qed.

Lemma build_params_from_value (value : param) :
  (if negb (is_string value) then py_str value
   else match value with
        | PUnicode u => encode_utf8 u
        | PStr s => s
        | _ => py_str value
        end) = byte_string_of value.
Proof. destruct value; reflexivity. Qed.

Lemma build_params_from_origin (params : list (string * param))
    (out : gmap string string) (k q : string) :
  build_params_from out params !! k = Some q ->
  out !! k = Some q \/
  exists key value, (key, value) ∈ params /\ k = camel_case key
                    /\ q = quote (byte_string_of value).
Proof.
  revert out. induction params as [|[key value] params IH]; intros out Hq; [by left|].
  cbn in Hq. apply IH in Hq as [Hq | (key' & value' & Hin & -> & ->)].
  - rewrite build_params_from_value, lookup_insert in Hq. case_decide.
    + right. exists key, value. split; [left|]. split; congruence.
    + by left.
  - right. exists key', value'. split; [by right | done].
Qed.

(** ** C10 *)

(** C10. For every parameter dict, each item of the dict that
    [build_params] returns comes from an item of the parameters, its key
    turned from underscore_case to camelCase (the first segment between
    underscores as it is, every later segment capitalized: [series_id]
    gives [seriesId]) and its value turned into a byte string ([str()] of
    what is not a string, UTF-8 of a unicode string) and percent-quoted;
    the converted key of every parameter is in the result, under the
    converted value when no two keys convert to the same. *)
Theorem build_params_camel_case_quoted (params : list (string * param)) :
  let out := build_params params in
  (forall key value, (key, value) ∈ params -> is_Some (out !! camel_case key)) /\
  (forall k q, out !! k = Some q ->
     exists key value, (key, value) ∈ params /\ k = camel_case key
                       /\ q = quote (byte_string_of value)) /\
  (NoDup (map (fun kv => camel_case kv.1) params) ->
   forall key value, (key, value) ∈ params ->
     out !! camel_case key = Some (quote (byte_string_of value))) /\
  (forall key, exists first others,
     split "_" key = first :: others /\
     camel_case key = first ++ join (map capitalize others)) /\
  camel_case "series_id" = "seriesId".
Proof.
  cbn zeta. unfold build_params. repeat split.
  - generalize (∅ : gmap string string).
    induction params as [|[key' value'] params IH]; intros out key value Hin.
    + by apply elem_of_nil in Hin.
    + cbn. apply elem_of_cons in Hin as [[= -> ->] | Hin].
      * apply build_params_from_keeps. rewrite lookup_insert_eq. eauto.
      * by apply IH with value.
  - intros k q Hq. apply build_params_from_origin in Hq as [Hq | Hq]; [|exact Hq].
    by rewrite lookup_empty in Hq.
  - generalize (∅ : gmap string string).
    induction params as [|[key' value'] params IH]; intros out Hnd key value Hin.
    + by apply elem_of_nil in Hin.
    + cbn in *. apply NoDup_cons in Hnd as [Hfresh Hnd].
      apply elem_of_cons in Hin as [[= -> ->] | Hin].
      * rewrite build_params_from_other by exact Hfresh.
        by rewrite build_params_from_value, lookup_insert_eq.
      * by apply IH.
  - intros key. unfold camel_case.
    destruct (split_cons "_" key) as (first & others & ->). eauto.
Qed.

(** ** C9 *)

(** C9. [DroneAPIClient.__init__] first gives [base_url] a trailing
    slash when it has none; [api_url] becomes the join of that url with
    ["api/"] only when the url does not already end in ["api/"], and for
    every [base_url] that ends in ["api/"] it stays None, the default of
    the class. *)
Theorem DroneAPIClient_init_api_url (cls : client_class)
    (headers : option (list (string * value))) (timeout : option Z)
    (base_url : string) (api_key : option value) :
  let normalized := if endswith base_url "/" then base_url else base_url ++ "/" in
  exists self,
    DroneAPIClient_init cls headers timeout (Some base_url) api_key = Ok self /\
    endswith normalized "/" = true /\
    api_url self = (if endswith normalized "api/" then None
                    else Some (urljoin normalized "api/")) /\
    (endswith base_url "api/" = true -> api_url self = None).
Proof.
  cbn zeta. unfold DroneAPIClient_init. eexists. split; [reflexivity|].
  cbn [api_url]. destruct (endswith base_url "/") eqn:Hslash; cbn [negb].
  - split; [exact Hslash|]. split.
    + destruct (endswith base_url "api/"); reflexivity.
    + intros ->. reflexivity.
  - split; [apply endswith_slash_appended|]. split.
    + destruct (endswith (base_url ++ "/") "api/"); reflexivity.
    + intros Hapi. apply endswith_api_slash in Hapi. congruence.
Qed.

(** ** C4 and C8 *)

Lemma DroneAPIClient_init_class (cls : client_class)
    (headers : option (list (string * value))) (timeout : option Z)
    (base_url : option string) (api_key : option value) (self : client) :
  DroneAPIClient_init cls headers timeout base_url api_key = Ok self ->
  class_of self = cls.
Proof.
  unfold DroneAPIClient_init. destruct base_url; [|discriminate].
  intros [= <-]. reflexivity.
Qed.

(** C4. The dispatcher picks one of the two clients by the class of the
    video: for an Episode, [get_client] is the SonarrClient built from the
    ["sonarr"] entry of the configuration, for a Movie the RadarrClient
    built from the ["radarr"] entry; and a client it returns is of the
    class registered for the video's class. *)
Theorem get_client_dispatch (v : video) (cfg_kwa : gmap string kwargs) :
  (media v = Episode -> forall kw, cfg_kwa !! "sonarr" = Some kw ->
     get_client v cfg_kwa = SonarrClient_init kw /\
     exists self, SonarrClient_init kw = Ok self /\ class_of self = SonarrClient) /\
  (media v = Movie -> forall kw, cfg_kwa !! "radarr" = Some kw ->
     get_client v cfg_kwa = RadarrClient_init kw /\
     exists self, RadarrClient_init kw = Ok self /\ class_of self = RadarrClient) /\
  (forall self, get_client v cfg_kwa = Ok self ->
     (media v = Episode /\ class_of self = SonarrClient) \/
     (media v = Movie /\ class_of self = RadarrClient)).
Proof.
  unfold get_client. repeat split.
  - rewrite H. cbn. rewrite H0. reflexivity.
  - eexists. split; [reflexivity|]. reflexivity.
  - rewrite H. cbn. rewrite H0. reflexivity.
  - eexists. split; [reflexivity|]. reflexivity.
  - intros self. destruct (media v) eqn:Hm; cbn [registry cfg_name].
    + destruct (cfg_kwa !! "sonarr"); [|discriminate].
      unfold SonarrClient_init. intros Hinit%DroneAPIClient_init_class. by left.
    + destruct (cfg_kwa !! "radarr"); [|discriminate].
      unfold RadarrClient_init. intros Hinit%DroneAPIClient_init_class. by right.
    + discriminate.
Qed.

(** C8. For a video that is neither an Episode nor a Movie, [refine]
    raises NotImplementedError out of [get_client] and leaves the video,
    and the world, as they were. *)
Theorem refine_unsupported_media (v : video) (kwargs : gmap string kwargs) (w : world) :
  media v <> Episode -> media v <> Movie ->
  refine v kwargs w = (Raise (NotImplementedError (type_name (media v))), v, w).
Proof.
  intros Hepisode Hmovie. unfold refine, get_client.
  destruct (media v); [congruence | congruence | reflexivity].
Qed.

(** ** C2 and C5: what [update_video] and [refine] write *)

Lemma same_but_refl (keys : list string) (v : video) : same_but keys v v.
Proof. by repeat split. Qed.

Lemma same_but_trans (keys : list string) (v1 v2 v3 : video) :
  same_but keys v1 v2 -> same_but keys v2 v3 -> same_but keys v1 v3.
Proof.
  intros (Hm1 & Hn1 & Ha1) (Hm2 & Hn2 & Ha2). repeat split; try congruence.
  intros attr Hattr. rewrite Ha2, Ha1; done.
Qed.

Lemma same_but_setattr (keys : list string) (v : video) (attr : string) (x : value) :
  attr ∈ keys -> same_but keys v (setattr v attr x).
Proof.
  intros Hin. repeat split. intros attr' Hout. cbn.
  rewrite lookup_insert_ne; [done|]. intros ->. contradiction.
Qed.

Lemma fill_from_guess_spec (fill : list string) (guess : gmap string value)
    (v : video) (w : world) :
  exists v' w',
    fill_from_guess fill guess v w = (Ok v', w') /\
    media v' = media v /\ name v' = name v /\ quiet w w' /\
    forall attr,
      attrs v' !! attr =
      if decide (attr ∈ fill)
      then match guess !! attr with Some x => Some x | None => attrs v !! attr end
      else attrs v !! attr.
Proof.
  unused_collaborators.
  revert v w. induction fill as [|a fill IH]; intros v w.
  - exists v, w. by repeat split.
  - cbn [fill_from_guess]. destruct (guess !! a) as [x|] eqn:Ha.
    + unfold bind, debug.
      destruct (IH (setattr v a x)
                  {| cache := cache w;
                     log := log w ++ [("%s: Filling attribute %s: %s",
                                       [VStr (name v); VStr a; x])];
                     sent := sent w |})
        as (v' & w' & Hrun & Hm & Hn & Hq & Hattrs).
      exists v', w'. split; [exact Hrun|].
      split; [exact Hm|]. split; [exact Hn|]. split; [exact Hq|].
      intros attr. rewrite Hattrs. cbn [setattr attrs].
      destruct (decide (attr = a)) as [->|Hne].
      * rewrite Ha, lookup_insert_eq.
        rewrite (decide_True (P := a ∈ a :: fill)) by set_solver.
        by case_decide.
      * rewrite lookup_insert_ne by done.
        destruct (decide (attr ∈ fill)) as [Hin|Hout].
        -- rewrite decide_True by set_solver. done.
        -- rewrite decide_False by set_solver. done.
    + destruct (IH v w) as (v' & w' & Hrun & Hm & Hn & Hq & Hattrs).
      exists v', w'. split; [exact Hrun|].
      split; [exact Hm|]. split; [exact Hn|]. split; [exact Hq|].
      intros attr. rewrite Hattrs.
      destruct (decide (attr = a)) as [->|Hne].
      * rewrite Ha. rewrite (decide_True (P := a ∈ a :: fill)) by set_solver.
        by case_decide.
      * destruct (decide (attr ∈ fill)) as [Hin|Hout].
        -- rewrite decide_True by set_solver. done.
        -- rewrite decide_False by set_solver. done.
Qed.

Lemma update_video_run (self : client) (v : video) (scene_name : string) (w : world) :
  let guess_from := remove_crap (scene_name ++ (splitext (name v)).2) in
  let guess :=
    guessit guess_from
      [("single_value", VBool true);
       ("type", VStr match class_of self with
                     | SonarrClient => "episode"
                     | RadarrClient => "movie"
                     end)] in
  exists v1 w',
    update_video self v (VStr scene_name) w
    = (Ok (setattr v1 "original_name" (VStr guess_from)), w') /\
    media v1 = media v /\ name v1 = name v /\ quiet w w' /\
    forall attr,
      attrs v1 !! attr =
      if decide (attr ∈ ["release_group"; "format"])
      then match guess !! attr with Some x => Some x | None => attrs v !! attr end
      else attrs v !! attr.
Proof.
  cbn zeta. unfold update_video, get_guess, bind, lift, ret.
  set (guess_from := remove_crap _). set (guess := guessit _ _).
  assert (Hfill : _fill_attrs (class_of self) = ["release_group"; "format"])
    by (destruct (class_of self); reflexivity).
  rewrite Hfill.
  destruct (fill_from_guess_spec ["release_group"; "format"] guess v w)
    as (v1 & w' & Hrun & Hrest).
  exists v1, w'. by rewrite Hrun.
Qed.

Lemma update_video_same_but (self : client) (v v' : video) (scene_name : value)
    (w w' : world) :
  update_video self v scene_name w = (Ok v', w') ->
  same_but ["release_group"; "format"; "original_name"] v v'.
Proof.
  unused_collaborators.
  destruct scene_name as [| | |s| |];
    try (unfold update_video, get_guess, bind, lift; discriminate).
  destruct (update_video_run self v s w) as (v1 & w1 & Hrun & Hm & Hn & _ & Hattrs).
  rewrite Hrun. intros [= <- <-].
  repeat split; try done. intros attr Hout. cbn [setattr attrs].
  rewrite lookup_insert_ne by set_solver.
  rewrite Hattrs. case_decide; [set_solver | done].
Qed.

(** C2. For every video and scene name, [update_video] runs guessit on
    the scene name with the extension of the video's file appended and
    the crap pattern removed; of [release_group] and [format], the
    [_fill_attrs] of both clients, it sets those the guess has to the
    value the guess has and leaves the others as they were, and
    [original_name] is set to the cleaned file name. Nothing else of the
    video changes. *)
Theorem update_video_fills (self : client) (v : video) (scene_name : string)
    (w : world) :
  let guess_from := remove_crap (scene_name ++ (splitext (name v)).2) in
  let guess :=
    guessit guess_from
      [("single_value", VBool true);
       ("type", VStr match class_of self with
                     | SonarrClient => "episode"
                     | RadarrClient => "movie"
                     end)] in
  exists v' w',
    update_video self v (VStr scene_name) w = (Ok v', w') /\
    _fill_attrs (class_of self) = ["release_group"; "format"] /\
    (forall attr, attr ∈ ["release_group"; "format"] ->
       attrs v' !! attr =
       match guess !! attr with Some x => Some x | None => attrs v !! attr end) /\
    attrs v' !! "original_name" = Some (VStr guess_from) /\
    same_but ["release_group"; "format"; "original_name"] v v' /\
    quiet w w'.
Proof.
  unused_collaborators.
  cbn zeta.
  destruct (update_video_run self v scene_name w)
    as (v1 & w' & Hrun & Hm & Hn & Hq & Hattrs).
  eexists _, _. split; [exact Hrun|].
  split; [by destruct (class_of self)|].
  split; [|split; [|split; [|exact Hq]]].
  - intros attr Hin. cbn [setattr attrs].
    rewrite lookup_insert_ne by set_solver.
    rewrite Hattrs. by case_decide.
  - cbn. apply lookup_insert_eq.
  - apply (update_video_same_but self v _ (VStr scene_name) w w'). exact Hrun.
Qed.

Lemma fill_scene_name_same_but (self : client) (v v' : video)
    (additional_data : value) (w w' : world) :
  fill_scene_name self v additional_data w = (Ok v', w') ->
  same_but ["release_group"; "format"; "original_name"] v v'.
Proof.
  unfold fill_scene_name, bind, lift, ret.
  destruct (contains additional_data "scene_name") as [[|]|]; try discriminate.
  - destruct (subscript additional_data "scene_name"); [|discriminate].
    apply update_video_same_but.
  - intros [= <- <-]. apply same_but_refl.
Qed.

Lemma fill_release_group_same_but (v v' : video) (additional_data : value) :
  fill_release_group v additional_data = Ok v' ->
  same_but ["release_group"; "format"; "original_name"] v v'.
Proof.
  unused_collaborators.
  unfold fill_release_group, rbind.
  destruct (contains additional_data "release_group") as [[|]|]; cbn [negb];
    try discriminate.
  - destruct (getattr v "release_group") as [rg|]; [|discriminate].
    destruct (truthy rg).
    + intros [= <-]. apply same_but_refl.
    + destruct (subscript additional_data "release_group") as [[| | |s| |]|];
        try discriminate.
      intros [= <-]. apply same_but_setattr. set_solver.
  - intros [= <-]. apply same_but_refl.
Qed.

(** C5. However [refine] ends, the video it leaves differs from the one
    it was given at most in [release_group], [format] and [original_name]:
    its class, its name and every other attribute are the same. *)
Theorem refine_frame (v : video) (kwargs : gmap string kwargs) (w : world) :
  same_but ["release_group"; "format"; "original_name"] v (refine v kwargs w).1.2.
Proof.
  unfold refine.
  destruct (get_client v kwargs) as [self|]; [|apply same_but_refl].
  destruct (get_additional_data self v w) as [[additional_data|] w1];
    [|apply same_but_refl].
  destruct (truthy additional_data); [|apply same_but_refl].
  destruct (fill_scene_name self v additional_data w1) as [[v1|] w2] eqn:Hscene;
    [|apply same_but_refl].
  apply fill_scene_name_same_but in Hscene.
  destruct (fill_release_group v1 additional_data) as [v2|] eqn:Hgroup; [|exact Hscene].
  apply fill_release_group_same_but in Hgroup.
  by apply same_but_trans with v1.
Qed.

(** ** C6: the release group of the service *)

(** C6. When the data of the service holds a release group (for Radarr,
    the [releaseGroup] of the movie's file), [refine] puts it, with the
    crap pattern removed, on a video whose [release_group] is unset (None
    or empty) once the scene name has been dealt with; a [release_group]
    that is set by then stays as it is. *)
Theorem refine_release_group (v : video) (kwargs : gmap string kwargs) (w : world)
    (self : client) (additional_data : list (string * value)) (w1 : world)
    (v1 : video) (w2 : world) (given : string) (release_group : value) :
  get_client v kwargs = Ok self ->
  get_additional_data self v w = (Ok (VDict additional_data), w1) ->
  fill_scene_name self v (VDict additional_data) w1 = (Ok v1, w2) ->
  items_get "release_group" additional_data = Some (VStr given) ->
  attrs v1 !! "release_group" = Some release_group ->
  refine v kwargs w =
  (Ok tt,
   if truthy release_group then v1
   else setattr v1 "release_group" (VStr (remove_crap given)),
   w2).
Proof.
  intros Hclient Hdata Hscene Hgiven Hgroup. unfold refine.
  rewrite Hclient, Hdata.
  assert (Htruthy : truthy (VDict additional_data) = true)
    by (destruct additional_data; [discriminate | reflexivity]).
  rewrite Htruthy, Hscene.
  unfold fill_release_group, rbind, contains, subscript, getattr, items_has.
  rewrite Hgiven, Hgroup. cbn [negb].
  destruct (truthy release_group); reflexivity.
Qed.

(** ** C1: the lookup by identity *)

Lemma first_match_find (p : value -> result bool) (q : value -> bool) (l : list value) :
  Forall (fun x => p x = Ok (q x)) l -> first_match p l = Ok (find q l).
Proof.
  induction 1 as [|x l Hx _ IH]; [reflexivity|].
  cbn. rewrite Hx. destruct (q x); [reflexivity | exact IH].
Qed.

Lemma first_match_none (p : value -> result bool) (l : list value) :
  Forall (fun x => p x = Ok false) l -> first_match p l = Ok None.
Proof.
  induction 1 as [|x l Hx _ IH]; [reflexivity|].
  cbn. rewrite Hx. exact IH.
Qed.

Lemma items_has_get {A : Type} (k : string) (d : list (string * A)) :
  items_has k d = true -> exists x, items_get k d = Some x.
Proof. unfold items_has. destruct (items_get k d); [eauto | discriminate]. Qed.

Lemma is_correct_show_matches (v : video) (series series_tvdb_id s : value) :
  attrs v !! "series" = Some series ->
  attrs v !! "series_tvdb_id" = Some series_tvdb_id ->
  show_record s = true ->
  is_correct_show v s = Ok (show_matches series series_tvdb_id s).
Proof.
  intros Hseries Hid Hrecord. destruct s as [| | | | |d]; try discriminate.
  apply items_has_get in Hrecord as [title Htitle].
  unfold is_correct_show, show_matches, field_is, rbind, subscript, getattr,
    contains, items_has.
  rewrite Htitle, Hseries, Hid.
  destruct (py_eq title series); [reflexivity|]. cbn [orb negb].
  destruct (truthy series_tvdb_id); [|reflexivity]. cbn [andb negb].
  destruct (items_get "tvdbId" d); reflexivity.
Qed.

Lemma is_correct_movie_matches (v : video) (title imdb_id : value) (movie_fn : string)
    (m : value) :
  attrs v !! "title" = Some title ->
  attrs v !! "imdb_id" = Some imdb_id ->
  movie_record m = true ->
  is_correct_movie v movie_fn m
  = Ok (if movie_matches title imdb_id movie_fn m then m else VNone).
Proof.
  intros Htitle Hid Hrecord. destruct m as [| | | | |d]; try discriminate.
  cbn [movie_record] in Hrecord. apply andb_true_iff in Hrecord as [Hhas Hfile].
  apply items_has_get in Hhas as [t Ht].
  unfold is_correct_movie, movie_matches, identity_matches, path_matches,
    field_is, rbind, subscript, getattr, contains, items_has, dict_get.
  rewrite Ht, Htitle, Hid.
  destruct (py_eq t title); [reflexivity|]. cbn [orb].
  assert (Hpath :
    (match
       match (match items_get "movieFile" d with Some x => x | None => VDict [] end) with
       | VDict d0 => Ok (match items_get "relativePath" d0 with
                         | Some x => x | None => VNone end)
       | _ => Raise (AttributeError "get")
       end
     with
     | Ok a => if py_eq a (VStr movie_fn) then Ok (VDict d) else Ok VNone
     | Raise e => Raise e
     end) =
    Ok (if match items_get "movieFile" d with
           | Some (VDict movie_file) =>
               match items_get "relativePath" movie_file with
               | Some y => py_eq y (VStr movie_fn)
               | None => false
               end
           | _ => false
           end then VDict d else VNone)).
  { destruct (items_get "movieFile" d) as [[| | | | |f]|]; try discriminate.
    - destruct (items_get "relativePath" f) as [y|]; [|reflexivity].
      destruct (py_eq y (VStr movie_fn)); reflexivity.
    - reflexivity. }
  destruct (truthy imdb_id); cbn [negb andb].
  - destruct (items_get "imdbId" d) as [i|]; cbn [negb].
    + destruct (py_eq i imdb_id); [reflexivity|]. cbn [orb]. exact Hpath.
    + exact Hpath.
  - exact Hpath.
Qed.

Lemma is_movie_matches (v : video) (title imdb_id : value) (movie_fn : string)
    (m : value) :
  attrs v !! "title" = Some title ->
  attrs v !! "imdb_id" = Some imdb_id ->
  movie_record m = true ->
  is_movie v movie_fn m = Ok (movie_matches title imdb_id movie_fn m).
Proof.
  intros Htitle Hid Hrecord. unfold is_movie.
  rewrite (is_correct_movie_matches v title imdb_id) by assumption.
  cbn [rbind]. destruct (movie_matches title imdb_id movie_fn m); [|reflexivity].
  destruct m as [| | | | |[|item d]]; try discriminate. reflexivity.
Qed.

Lemma Forall_bool_eq (p : value -> result bool) (q r : value -> bool) (l : list value) :
  (forall x, r x = true -> p x = Ok (q x)) ->
  Forall (fun x => r x = true) l -> Forall (fun x => p x = Ok (q x)) l.
Proof. intros Hp Hl. eapply Forall_impl; [exact Hl | exact Hp]. Qed.

Lemma get_show_id_cached (self : client) (v : video) (w w1 : world)
    (series series_tvdb_id cached : value) (shows : list value) (show : value) :
  attrs v !! "series" = Some series ->
  attrs v !! "series_tvdb_id" = Some series_tvdb_id ->
  get_all_series self w = (Ok cached, w1) ->
  py_iter cached = Ok shows ->
  Forall (fun s => show_record s = true) shows ->
  find (show_matches series series_tvdb_id) shows = Some show ->
  get_show_id self v w = (subscript show "id", w1).
Proof.
  intros Hseries Hid Hcached Hiter Hrecords Hfind.
  unfold get_show_id, bind, lift. rewrite Hcached, Hiter.
  rewrite (first_match_find _ (show_matches series series_tvdb_id)).
  - rewrite Hfind. reflexivity.
  - eapply Forall_bool_eq; [|exact Hrecords].
    intros s. by apply is_correct_show_matches.
Qed.

Lemma get_show_id_refreshed (self : client) (v : video) (w w1 w2 : world)
    (series series_tvdb_id cached fresh : value) (shows shows' : list value) :
  attrs v !! "series" = Some series ->
  attrs v !! "series_tvdb_id" = Some series_tvdb_id ->
  get_all_series self w = (Ok cached, w1) ->
  py_iter cached = Ok shows ->
  Forall (fun s => show_record s = true) shows ->
  find (show_matches series series_tvdb_id) shows = None ->
  get_all_series_refresh self
    (logged "%s: Show not found, refreshing cache: %s" [VStr (name v); series] w1)
  = (Ok fresh, w2) ->
  py_iter fresh = Ok shows' ->
  Forall (fun s => show_record s = true) shows' ->
  get_show_id self v w =
  (match find (show_matches series series_tvdb_id) shows' with
   | Some show => subscript show "id"
   | None => Ok VNone
   end, w2).
Proof.
  intros Hseries Hid Hcached Hiter Hrecords Hfind Hfresh Hiter' Hrecords'.
  unfold get_show_id, bind, lift. rewrite Hcached, Hiter.
  rewrite (first_match_find _ (show_matches series series_tvdb_id)).
  2:{ eapply Forall_bool_eq; [|exact Hrecords].
      intros s. by apply is_correct_show_matches. }
  rewrite Hfind. unfold getattr. rewrite Hseries.
  unfold logged in Hfresh. cbn [debug snd] in *.
  rewrite Hfresh, Hiter'.
  rewrite (first_match_find _ (show_matches series series_tvdb_id)).
  2:{ eapply Forall_bool_eq; [|exact Hrecords'].
      intros s. by apply is_correct_show_matches. }
  destruct (find (show_matches series series_tvdb_id) shows'); reflexivity.
Qed.

Lemma get_movie_cached (self : client) (v : video) (w w1 : world)
    (title imdb_id cached : value) (movies : list value) (movie : value) :
  attrs v !! "title" = Some title ->
  attrs v !! "imdb_id" = Some imdb_id ->
  get_all_movies self w = (Ok cached, w1) ->
  py_iter cached = Ok movies ->
  Forall (fun m => movie_record m = true) movies ->
  find (movie_matches title imdb_id (basename (name v))) movies = Some movie ->
  get_movie self v w = (Ok movie, w1).
Proof.
  intros Htitle Hid Hcached Hiter Hrecords Hfind.
  unfold get_movie, bind, lift. rewrite Hcached, Hiter.
  rewrite (first_match_find _ (movie_matches title imdb_id (basename (name v)))).
  - rewrite Hfind. reflexivity.
  - eapply Forall_bool_eq; [|exact Hrecords].
    intros m. by apply is_movie_matches.
Qed.

Lemma get_movie_refreshed (self : client) (v : video) (w w1 w2 : world)
    (title imdb_id cached fresh : value) (movies movies' : list value) :
  attrs v !! "title" = Some title ->
  attrs v !! "imdb_id" = Some imdb_id ->
  get_all_movies self w = (Ok cached, w1) ->
  py_iter cached = Ok movies ->
  Forall (fun m => movie_record m = true) movies ->
  find (movie_matches title imdb_id (basename (name v))) movies = None ->
  get_all_movies_refresh self
    (logged "%s: Movie not found, refreshing cache" [VStr (name v)] w1)
  = (Ok fresh, w2) ->
  py_iter fresh = Ok movies' ->
  Forall (fun m => movie_record m = true) movies' ->
  get_movie self v w =
  (Ok (default VNone (find (movie_matches title imdb_id (basename (name v))) movies')),
   w2).
Proof.
  intros Htitle Hid Hcached Hiter Hrecords Hfind Hfresh Hiter' Hrecords'.
  unfold get_movie, bind, lift. rewrite Hcached, Hiter.
  rewrite (first_match_find _ (movie_matches title imdb_id (basename (name v)))).
  2:{ eapply Forall_bool_eq; [|exact Hrecords].
      intros m. by apply is_movie_matches. }
  rewrite Hfind.
  unfold logged in Hfresh. cbn [debug snd] in *.
  rewrite Hfresh, Hiter'.
  rewrite (first_match_find _ (movie_matches title imdb_id (basename (name v)))).
  2:{ eapply Forall_bool_eq; [|exact Hrecords'].
      intros m. by apply is_movie_matches. }
  destruct (find _ movies'); reflexivity.
Qed.

(** C1, amended. For a video that has the attributes the match reads
    ([series] and [series_tvdb_id], or [title] and [imdb_id]), the lookup
    scans the records of the memoized list in order for the first that
    is the video's: by title, by the TVDB or IMDB id when the video carries
    one and, for a movie, also by the path of the movie's file being the
    file name of the video. [get_show_id] returns the id of that show and
    [get_movie] that movie, without a refresh. Only when no record of the
    list matches is the cache refreshed and the refreshed list scanned
    once, in the same way; when that scan finds nothing either, the lookup
    returns None. *)
Theorem lookup_by_identity (self : client) (v : video) (w w1 : world)
    (cached : value) (records : list value) :
  py_iter cached = Ok records ->
  (forall series series_tvdb_id,
     attrs v !! "series" = Some series ->
     attrs v !! "series_tvdb_id" = Some series_tvdb_id ->
     get_all_series self w = (Ok cached, w1) ->
     Forall (fun s => show_record s = true) records ->
     match find (show_matches series series_tvdb_id) records with
     | Some show => get_show_id self v w = (subscript show "id", w1)
     | None =>
         forall fresh records' w2,
           get_all_series_refresh self
             (logged "%s: Show not found, refreshing cache: %s"
                     [VStr (name v); series] w1)
           = (Ok fresh, w2) ->
           py_iter fresh = Ok records' ->
           Forall (fun s => show_record s = true) records' ->
           get_show_id self v w =
           (match find (show_matches series series_tvdb_id) records' with
            | Some show => subscript show "id"
            | None => Ok VNone
            end, w2)
     end) /\
  (forall title imdb_id,
     attrs v !! "title" = Some title ->
     attrs v !! "imdb_id" = Some imdb_id ->
     get_all_movies self w = (Ok cached, w1) ->
     Forall (fun m => movie_record m = true) records ->
     match find (movie_matches title imdb_id (basename (name v))) records with
     | Some movie => get_movie self v w = (Ok movie, w1)
     | None =>
         forall fresh records' w2,
           get_all_movies_refresh self
             (logged "%s: Movie not found, refreshing cache" [VStr (name v)] w1)
           = (Ok fresh, w2) ->
           py_iter fresh = Ok records' ->
           Forall (fun m => movie_record m = true) records' ->
           get_movie self v w =
           (Ok (default VNone
                  (find (movie_matches title imdb_id (basename (name v))) records')),
            w2)
     end).
Proof.
  intros Hiter. split.
  - intros series series_tvdb_id Hseries Hid Hcached Hrecords.
    destruct (find _ records) as [show|] eqn:Hfind.
    + by eapply get_show_id_cached.
    + intros fresh records' w2 Hfresh Hiter' Hrecords'.
      by eapply get_show_id_refreshed.
  - intros title imdb_id Htitle Hid Hcached Hrecords.
    destruct (find _ records) as [movie|] eqn:Hfind.
    + by eapply get_movie_cached.
    + intros fresh records' w2 Hfresh Hiter' Hrecords'.
      by eapply get_movie_refreshed.
Qed.

(** ** C3: nothing found, nothing changed *)

Lemma needs_attr_present (self : client) (v : video) (attr : string) :
  lacks_attr self v = false ->
  attr ∈ needs_attrs_to_work (class_of self) ->
  exists x, attrs v !! attr = Some x /\ is_None x = false.
Proof.
  unfold lacks_attr. intros Hlacks Hin.
  assert (Hattr : is_None (getattr_default v attr) = false).
  { destruct (is_None (getattr_default v attr)) eqn:Hnone; [|reflexivity].
    rewrite <- Hlacks. symmetry. apply existsb_exists. exists attr.
    split; [by apply list_elem_of_In | exact Hnone]. }
  unfold getattr_default in Hattr.
  destruct (attrs v !! attr) as [x|]; [eauto | discriminate].
Qed.

Lemma get_additional_data_no_data (self : client) (v : video) (w w1 : world)
    (logs : bool) :
  no_data self v w w1 logs ->
  exists additional_data w',
    get_additional_data self v w = (Ok additional_data, w') /\
    truthy additional_data = false /\
    quiet w1 w' /\
    if logs then exists record, log w' = (log w1 ++ [record])%list else log w' = log w1.
Proof.
  unused_collaborators.
  intros Hcase. unfold get_additional_data.
  destruct Hcase as
    [Hlacks
    |found_show_id w1 Hclass Hlacks Hshow Hid
    |found_show_id w1 fetched episodes w2 Hclass Hlacks Hshow Hid Hget Hiter Hnone
    |found_show_id w1 fetched episodes w2 episode episodeFile scene_name
       Hclass Hlacks Hshow Hid Hget Hiter Hfirst Hfile Hname Hscene
    |movie w1 Hclass Hlacks Hmovie Hfound
    |movie w1 movie_file scene_name release_group
       Hclass Hlacks Hmovie Hfound Hfile Hname Hscene Hgroup Hrelease].
  - destruct (class_of self);
      unfold Sonarr_get_additional_data, Radarr_get_additional_data;
      rewrite Hlacks; unfold bind, debug, ret;
      (eexists _, _; split; [reflexivity|]; repeat split; eauto).
  - destruct (needs_attr_present self v "series" Hlacks) as (series & Hseries & _).
    { rewrite Hclass. set_solver. }
    rewrite Hclass. unfold Sonarr_get_additional_data.
    rewrite Hlacks. unfold bind, lift, getattr. rewrite Hshow, Hid, Hseries.
    unfold debug, ret. cbn [negb].
    eexists _, _; split; [reflexivity|]; repeat split; eauto.
  - destruct (needs_attr_present self v "season" Hlacks) as (season & Hseason & _).
    { rewrite Hclass. set_solver. }
    destruct (needs_attr_present self v "episode" Hlacks) as (number & Hnumber & _).
    { rewrite Hclass. set_solver. }
    rewrite Hclass. unfold Sonarr_get_additional_data.
    rewrite Hlacks. unfold bind, lift, getattr. rewrite Hshow, Hid. cbn [negb].
    rewrite Hget, Hiter, (first_match_none _ _ Hnone), Hseason, Hnumber.
    unfold debug, ret.
    eexists _, _; split; [reflexivity|]; repeat split; eauto.
  - rewrite Hclass. unfold Sonarr_get_additional_data.
    rewrite Hlacks. unfold bind, lift. rewrite Hshow, Hid. cbn [negb].
    rewrite Hget, Hiter, Hfirst, Hfile, Hname, Hscene.
    unfold debug, ret.
    eexists _, _; split; [reflexivity|]; repeat split; eauto.
  - rewrite Hclass. unfold Radarr_get_additional_data.
    rewrite Hlacks. unfold bind. rewrite Hmovie, Hfound. cbn [negb].
    unfold debug, ret.
    eexists _, _; split; [reflexivity|]; repeat split; eauto.
  - rewrite Hclass. unfold Radarr_get_additional_data.
    rewrite Hlacks. unfold bind, lift. rewrite Hmovie, Hfound. cbn [negb].
    rewrite Hfile, Hname, Hgroup, Hscene, Hrelease. unfold ret.
    eexists _, _; split; [reflexivity|]; repeat split; eauto.
Qed.

(** C3, amended. When an attribute the client needs is missing from the
    video, or the show, the episode or the movie is not found, or the
    episode found carries no scene name, or the movie found carries
    neither a scene name nor a release group, [get_additional_data] returns
    nothing to use (None, or an empty dict), and [refine] returns normally
    with the video as it was. Each of these cases is logged, except that
    of the movie without scene name and release group. *)
Theorem refine_no_data (v : video) (kwargs : gmap string kwargs) (w : world)
    (self : client) (w1 : world) (logs : bool) :
  get_client v kwargs = Ok self ->
  no_data self v w w1 logs ->
  exists additional_data w',
    get_additional_data self v w = (Ok additional_data, w') /\
    truthy additional_data = false /\
    refine v kwargs w = (Ok tt, v, w') /\
    quiet w1 w' /\
    if logs then exists record, log w' = (log w1 ++ [record])%list else log w' = log w1.
Proof.
  intros Hclient Hcase.
  destruct (get_additional_data_no_data self v w w1 logs Hcase)
    as (additional_data & w' & Hdata & Hfalsy & Hquiet & Hlog).
  exists additional_data, w'. repeat split; try done; try apply Hquiet.
  unfold refine. by rewrite Hclient, Hdata, Hfalsy.
Qed.

(** ** C7: the memoized lists *)

Section Preserves.

Context (R : world -> world -> Prop).
Context `{R_refl : !Reflexive R} `{R_trans : !Transitive R}.

Lemma preserves_ret {A} (a : A) : preserves R (ret a).
Proof using R_refl. intros w. reflexivity. Qed.

Lemma preserves_lift {A} (r : result A) : preserves R (lift r).
Proof using R_refl. intros w. reflexivity. Qed.

Lemma preserves_bind {A B} (c : M A) (k : A -> M B) :
  preserves R c -> (forall a, preserves R (k a)) -> preserves R (bind c k).
Proof using R_trans.
  intros Hc Hk w. unfold bind. specialize (Hc w).
  destruct (c w) as [[a|e] w1]; [|exact Hc].
  cbn in Hc. etransitivity; [exact Hc | apply Hk].
Qed.

End Preserves.

Global Instance off_key_refl (key : string) : Reflexive (off_key key).
Proof. by intros w k. Qed.

Global Instance off_key_trans (key : string) : Transitive (off_key key).
Proof. intros w1 w2 w3 H12 H23 k Hk. rewrite H23, H12; done. Qed.

Lemma get_quiet (self : client) (endpoint : string) (params : list (string * param))
    (w : world) :
  cache (get self endpoint params w).2 = cache w /\
  log (get self endpoint params w).2 = log w.
Proof.
  unfold get, bind, session_get, ret.
  destruct (transport _ _) as [j|]; [destruct (truthy j)|]; by split.
Qed.

Lemma preserves_get (key : string) (self : client) (endpoint : string)
    (params : list (string * param)) :
  preserves (off_key key) (get self endpoint params).
Proof. intros w k _. by rewrite (proj1 (get_quiet self endpoint params w)). Qed.

Lemma preserves_debug (key : string) (msg : string) (args : list value) :
  preserves (off_key key) (debug msg args).
Proof. by intros w k _. Qed.

Lemma preserves_cache_on_arguments (key : string) (fn : M value) :
  preserves (off_key key) fn ->
  preserves (off_key key) (cache_on_arguments truthy key fn).
Proof.
  intros Hfn w. unfold cache_on_arguments.
  destruct (cache w !! key); [reflexivity|].
  specialize (Hfn w). destruct (fn w) as [[x|e] w1]; [|exact Hfn].
  destruct (truthy x); [|exact Hfn].
  intros k Hk. cbn. rewrite lookup_insert_ne by done. by apply Hfn.
Qed.

Lemma preserves_refresh (key : string) (fn : M value) :
  preserves (off_key key) fn ->
  preserves (off_key key) (refresh truthy key fn).
Proof.
  intros Hfn w. unfold refresh.
  specialize (Hfn w). destruct (fn w) as [[x|e] w1]; [|exact Hfn].
  intros k Hk. cbn. destruct (truthy x).
  - rewrite lookup_insert_ne by done. by apply Hfn.
  - rewrite lookup_delete_ne by done. by apply Hfn.
Qed.

Ltac preserves_step :=
  first
    [ apply preserves_debug
    | apply preserves_get
    | apply preserves_cache_on_arguments
    | apply preserves_refresh
    | apply preserves_ret; apply _
    | apply preserves_lift; apply _
    | match goal with
      | |- preserves _ (match ?x with _ => _ end) => destruct x
      | |- preserves _ (if ?x then _ else _) => destruct x
      | |- preserves _ (bind _ _) => apply preserves_bind; [apply _| |intros ?]
      end ].

Lemma get_show_id_off_key (self : client) (v : video) :
  preserves (off_key "sonarr_series") (get_show_id self v).
Proof.
  unfold get_show_id, get_all_series, get_all_series_refresh, get_all_series_fetch,
    sonarr_series_cache_key.
  repeat preserves_step.
Qed.

Lemma get_movie_off_key (self : client) (v : video) :
  preserves (off_key "radarr_movies") (get_movie self v).
Proof.
  unfold get_movie, get_all_movies, get_all_movies_refresh, get_all_movies_fetch,
    radarr_movies_cache_key.
  repeat preserves_step.
Qed.

Lemma get_all_series_miss (self : client) (w w1 : world) (x : value) :
  cache w !! "sonarr_series" = None ->
  get_all_series_fetch self w = (Ok x, w1) ->
  exists w2,
    get_all_series self w = (Ok x, w2) /\
    cache w2 = (if truthy x then <["sonarr_series" := x]> (cache w) else cache w) /\
    log w2 = log w1 /\ sent w2 = sent w1.
Proof.
  intros Hmiss Hfetch. unfold get_all_series, cache_on_arguments, sonarr_series_cache_key.
  rewrite Hmiss, Hfetch.
  pose proof (proj1 (get_quiet self "series" [] w)) as Hcache.
  unfold get_all_series_fetch in Hfetch. rewrite Hfetch in Hcache. cbn in Hcache.
  eexists. split; [reflexivity|]. destruct (truthy x); cbn; by rewrite ?Hcache.
Qed.

Lemma get_all_movies_miss (self : client) (w w1 : world) (x : value) :
  cache w !! "radarr_movies" = None ->
  get_all_movies_fetch self w = (Ok x, w1) ->
  exists w2,
    get_all_movies self w = (Ok x, w2) /\
    cache w2 = (if truthy x then <["radarr_movies" := x]> (cache w) else cache w) /\
    log w2 = log w1 /\ sent w2 = sent w1.
Proof.
  intros Hmiss Hfetch. unfold get_all_movies, cache_on_arguments, radarr_movies_cache_key.
  rewrite Hmiss, Hfetch.
  pose proof (proj1 (get_quiet self "movie" [] w)) as Hcache.
  unfold get_all_movies_fetch in Hfetch. rewrite Hfetch in Hcache. cbn in Hcache.
  eexists. split; [reflexivity|]. destruct (truthy x); cbn; by rewrite ?Hcache.
Qed.

Lemma get_show_id_refreshes (self : client) (v : video) (w w1 : world)
    (x series fresh : value) (records : list value) :
  cache w !! "sonarr_series" = Some x ->
  py_iter x = Ok records ->
  first_match (is_correct_show v) records = Ok None ->
  attrs v !! "series" = Some series ->
  get_all_series_fetch self
    (logged "%s: Show not found, refreshing cache: %s" [VStr (name v); series] w)
  = (Ok fresh, w1) ->
  cache (get_show_id self v w).2 =
  (if truthy fresh then <["sonarr_series" := fresh]> (cache w)
   else delete "sonarr_series" (cache w)).
Proof.
  intros Hhit Hiter Hnone Hseries Hfetch.
  pose proof (proj1 (get_quiet self "series" []
    (logged "%s: Show not found, refreshing cache: %s" [VStr (name v); series] w)))
    as Hcache.
  unfold get_all_series_fetch in Hfetch. rewrite Hfetch in Hcache.
  unfold logged in Hfetch, Hcache. cbn [debug snd cache] in Hfetch, Hcache.
  unfold get_show_id, get_all_series, get_all_series_refresh, get_all_series_fetch,
    cache_on_arguments, refresh, sonarr_series_cache_key, bind, lift, getattr.
  rewrite Hhit, Hiter, Hnone, Hseries. cbn [debug]. rewrite Hfetch.
  destruct (py_iter fresh) as [records'|]; [|by rewrite Hcache].
  destruct (first_match (is_correct_show v) records') as [[show|]|];
    by rewrite Hcache.
Qed.

Lemma get_movie_refreshes (self : client) (v : video) (w w1 : world)
    (x fresh : value) (records : list value) :
  cache w !! "radarr_movies" = Some x ->
  py_iter x = Ok records ->
  first_match (is_movie v (basename (name v))) records = Ok None ->
  get_all_movies_fetch self
    (logged "%s: Movie not found, refreshing cache" [VStr (name v)] w)
  = (Ok fresh, w1) ->
  cache (get_movie self v w).2 =
  (if truthy fresh then <["radarr_movies" := fresh]> (cache w)
   else delete "radarr_movies" (cache w)).
Proof.
  intros Hhit Hiter Hnone Hfetch.
  pose proof (proj1 (get_quiet self "movie" []
    (logged "%s: Movie not found, refreshing cache" [VStr (name v)] w))) as Hcache.
  unfold get_all_movies_fetch in Hfetch. rewrite Hfetch in Hcache.
  unfold logged in Hfetch, Hcache. cbn [debug snd cache] in Hfetch, Hcache.
  unfold get_movie, get_all_movies, get_all_movies_refresh, get_all_movies_fetch,
    cache_on_arguments, refresh, radarr_movies_cache_key, bind, lift.
  rewrite Hhit, Hiter, Hnone. cbn [debug]. rewrite Hfetch.
  destruct (py_iter fresh) as [records'|]; [|by rewrite Hcache].
  destruct (first_match (is_movie v (basename (name v))) records') as [[movie|]|];
    by rewrite Hcache.
Qed.

(** C7. The lists of all series and of all movies are memoized in the
    keyed cache, each under one fixed key, ["sonarr_series"] and
    ["radarr_movies"], whatever the arguments of the call and the client:
    with an entry under the key the call returns it and nothing is
    fetched; without one the list is fetched and stored only if it is
    truthy. A lookup that finds its record in the cached list leaves the
    world as it is; the entry is invalidated only by the refresh of a
    lookup that found no match in the cached list. No other key of the
    cache is touched. *)
Theorem memoized_lists (self : client) (w : world) :
  (forall (namespace fn namespace' fn' : string) (arg arg' : list client),
     sonarr_series_cache_key namespace fn arg = "sonarr_series" /\
     sonarr_series_cache_key namespace' fn' arg' = "sonarr_series" /\
     radarr_movies_cache_key namespace fn arg = "radarr_movies" /\
     radarr_movies_cache_key namespace' fn' arg' = "radarr_movies") /\
  (forall x, cache w !! "sonarr_series" = Some x -> get_all_series self w = (Ok x, w)) /\
  (forall x, cache w !! "radarr_movies" = Some x -> get_all_movies self w = (Ok x, w)) /\
  (cache w !! "sonarr_series" = None ->
   forall x w1, get_all_series_fetch self w = (Ok x, w1) ->
     exists w2,
       get_all_series self w = (Ok x, w2) /\
       cache w2 = (if truthy x then <["sonarr_series" := x]> (cache w) else cache w) /\
       log w2 = log w1 /\ sent w2 = sent w1) /\
  (cache w !! "radarr_movies" = None ->
   forall x w1, get_all_movies_fetch self w = (Ok x, w1) ->
     exists w2,
       get_all_movies self w = (Ok x, w2) /\
       cache w2 = (if truthy x then <["radarr_movies" := x]> (cache w) else cache w) /\
       log w2 = log w1 /\ sent w2 = sent w1) /\
  (forall v x records show,
     cache w !! "sonarr_series" = Some x ->
     py_iter x = Ok records ->
     first_match (is_correct_show v) records = Ok (Some show) ->
     (get_show_id self v w).2 = w) /\
  (forall v x records movie,
     cache w !! "radarr_movies" = Some x ->
     py_iter x = Ok records ->
     first_match (is_movie v (basename (name v))) records = Ok (Some movie) ->
     (get_movie self v w).2 = w) /\
  (forall v x records series fresh w1,
     cache w !! "sonarr_series" = Some x ->
     py_iter x = Ok records ->
     first_match (is_correct_show v) records = Ok None ->
     attrs v !! "series" = Some series ->
     get_all_series_fetch self
       (logged "%s: Show not found, refreshing cache: %s" [VStr (name v); series] w)
     = (Ok fresh, w1) ->
     cache (get_show_id self v w).2 =
     (if truthy fresh then <["sonarr_series" := fresh]> (cache w)
      else delete "sonarr_series" (cache w))) /\
  (forall v x records fresh w1,
     cache w !! "radarr_movies" = Some x ->
     py_iter x = Ok records ->
     first_match (is_movie v (basename (name v))) records = Ok None ->
     get_all_movies_fetch self
       (logged "%s: Movie not found, refreshing cache" [VStr (name v)] w)
     = (Ok fresh, w1) ->
     cache (get_movie self v w).2 =
     (if truthy fresh then <["radarr_movies" := fresh]> (cache w)
      else delete "radarr_movies" (cache w))) /\
  (forall v, off_key "sonarr_series" w (get_show_id self v w).2) /\
  (forall v, off_key "radarr_movies" w (get_movie self v w).2).
Proof.
  split; [by intros|].
  split.
  { intros x Hhit. unfold get_all_series, cache_on_arguments, sonarr_series_cache_key.
    by rewrite Hhit. }
  split.
  { intros x Hhit. unfold get_all_movies, cache_on_arguments, radarr_movies_cache_key.
    by rewrite Hhit. }
  split; [intros Hmiss x w1; by apply get_all_series_miss|].
  split; [intros Hmiss x w1; by apply get_all_movies_miss|].
  split.
  { intros v x records show Hhit Hiter Hfound.
    unfold get_show_id, get_all_series, cache_on_arguments, sonarr_series_cache_key,
      bind, lift.
    by rewrite Hhit, Hiter, Hfound. }
  split.
  { intros v x records movie Hhit Hiter Hfound.
    unfold get_movie, get_all_movies, cache_on_arguments, radarr_movies_cache_key,
      bind, lift.
    by rewrite Hhit, Hiter, Hfound. }
  split; [intros v x records series fresh w1; by apply get_show_id_refreshes|].
  split; [intros v x records fresh w1; by apply get_movie_refreshes|].
  split; intros v; [apply get_show_id_off_key | apply get_movie_off_key].
Qed.

(** * Further properties of the module *)

(** ** Keys and values of [build_params] *)

Lemma append_cons (a : ascii) (s1 s2 : string) :
  String a s1 ++ s2 = String a (s1 ++ s2).
Proof. reflexivity. Qed.

Lemma string_forall_app (p : ascii -> bool) (s1 s2 : string) :
  string_forall p (s1 ++ s2) = string_forall p s1 && string_forall p s2.
Proof.
  induction s1 as [|a s1 IH]; [reflexivity|].
  rewrite append_cons. cbn. rewrite IH. apply andb_assoc.
Qed.

Lemma append_empty (s : string) : s ++ "" = s.
Proof.
  induction s as [|a s IH]; [reflexivity|]. rewrite append_cons. by rewrite IH.
Qed.

Lemma split_segments_free (sep : ascii) (s : string) :
  Forall (fun seg => string_forall (fun a => negb (Ascii.eqb a sep)) seg = true)
         (split sep s).
Proof.
  induction s as [|a s IH]; cbn.
  - by repeat constructor.
  - destruct (Ascii.eqb a sep) eqn:Ha.
    + constructor; [reflexivity | exact IH].
    + destruct (split sep s) as [|h t].
      * repeat constructor. cbn. by rewrite Ha.
      * apply Forall_cons in IH as [Hh Ht]. constructor; [|exact Ht].
        cbn. by rewrite Ha, Hh.
Qed.

Lemma split_plain (sep : ascii) (s : string) :
  string_forall (fun a => negb (Ascii.eqb a sep)) s = true -> split sep s = [s].
Proof.
  induction s as [|a s IH]; [reflexivity|].
  cbn. intros [Ha Hs]%andb_true_iff. apply negb_true_iff in Ha.
  rewrite Ha, (IH Hs). reflexivity.
Qed.

Lemma upper_not_underscore (a : ascii) :
  not_underscore a = true -> not_underscore (upper a) = true.
Proof. destruct a as [[] [] [] [] [] [] [] []]; vm_compute; congruence. Qed.

Lemma lower_not_underscore (a : ascii) :
  not_underscore a = true -> not_underscore (lower a) = true.
Proof. destruct a as [[] [] [] [] [] [] [] []]; vm_compute; congruence. Qed.

Lemma capitalize_not_underscore (s : string) :
  string_forall not_underscore s = true ->
  string_forall not_underscore (capitalize s) = true.
Proof.
  destruct s as [|a s]; [done|]. cbn.
  intros [Ha Hs]%andb_true_iff. rewrite (upper_not_underscore a Ha). cbn.
  induction s as [|b s IH]; [done|]. cbn in *.
  apply andb_true_iff in Hs as [Hb Hs].
  by rewrite (lower_not_underscore b Hb), (IH Hs).
Qed.

Lemma join_not_underscore (l : list string) :
  Forall (fun seg => string_forall not_underscore seg = true) l ->
  string_forall not_underscore (join l) = true.
Proof.
  unfold join. induction 1 as [|seg l Hseg _ IH]; [reflexivity|].
  destruct l as [|seg' l]; cbn [String.concat]; [exact Hseg|].
  change ("" ++ String.concat "" (seg' :: l)) with (String.concat "" (seg' :: l)).
  rewrite string_forall_app, Hseg. exact IH.
Qed.

Lemma camel_case_plain (key : string) :
  string_forall not_underscore key = true -> camel_case key = key.
Proof.
  intros Hkey. unfold camel_case. rewrite (split_plain "_" key Hkey).
  cbn. apply append_empty.
Qed.

Lemma camel_case_free (key : string) :
  string_forall not_underscore (camel_case key) = true.
Proof.
  unfold camel_case. pose proof (split_segments_free "_" key) as Hsplit.
  destruct (split "_" key) as [|first others]; [reflexivity|].
  apply Forall_cons in Hsplit as [Hfirst Hothers].
  rewrite string_forall_app. apply andb_true_iff. split; [exact Hfirst|].
  apply join_not_underscore. apply Forall_fmap.
  eapply Forall_impl; [exact Hothers|]. intros seg. apply capitalize_not_underscore.
Qed.

(** X1. A key that [build_params] has converted holds no underscore,
    and converting it again changes nothing. *)
Theorem camel_case_no_underscore (key : string) :
  string_forall not_underscore (camel_case key) = true /\
  camel_case (camel_case key) = camel_case key.
Proof.
  split; [apply camel_case_free|]. apply camel_case_plain, camel_case_free.
Qed.

(** X2. A key without an underscore goes through [build_params] as it
    is, upper case letters included. *)
Theorem camel_case_without_underscore (key : string) :
  string_forall not_underscore key = true -> camel_case key = key.
Proof. apply camel_case_plain. Qed.

Lemma quote_char_safe (a : ascii) : safe_char a = true -> quote_char a = String a "".
Proof. unfold quote_char, safe_char. by intros ->. Qed.

Lemma quote_char_shape (a : ascii) :
  string_forall quoted_char (quote_char a) = true /\
  (1 <= String.length (quote_char a) <= 3)%nat.
Proof. destruct a as [[] [] [] [] [] [] [] []]; vm_compute; split; (done || lia). Qed.

Lemma unquote_head_quote_char (a : ascii) (s : string) :
  unquote_head (quote_char a ++ s) = Some (a, s).
Proof. destruct a as [[] [] [] [] [] [] [] []]; reflexivity. Qed.

Lemma length_append (s1 s2 : string) :
  String.length (s1 ++ s2) = (String.length s1 + String.length s2)%nat.
Proof.
  induction s1 as [|a s1 IH]; [reflexivity|].
  rewrite append_cons. cbn. by rewrite IH.
Qed.

Lemma quote_safe (s : string) : string_forall safe_char s = true -> quote s = s.
Proof.
  induction s as [|a s IH]; [reflexivity|].
  cbn. intros [Ha Hs]%andb_true_iff.
  rewrite (quote_char_safe a Ha), (IH Hs). reflexivity.
Qed.

(** X3. [quote] leaves a string of letters, digits and [_.-/] as it is;
    whatever the string, the result holds only such characters and [%],
    and is at least as long as the string and at most three times as
    long. *)
Theorem quote_alphabet (s : string) :
  (string_forall safe_char s = true -> quote s = s) /\
  string_forall quoted_char (quote s) = true /\
  (String.length s <= String.length (quote s) <= 3 * String.length s)%nat.
Proof.
  split; [apply quote_safe|split].
  - induction s as [|a s IH]; [reflexivity|].
    cbn [quote]. rewrite string_forall_app, IH.
    by rewrite (proj1 (quote_char_shape a)).
  - induction s as [|a s IH]; [cbn; lia|].
    cbn [quote String.length]. rewrite length_append.
    pose proof (proj2 (quote_char_shape a)). lia.
Qed.

(** X4. [quote] is injective: two values are sent as the same quoted
    string only if they are the same byte string. *)
Theorem quote_injective (s1 s2 : string) : quote s1 = quote s2 -> s1 = s2.
Proof.
  revert s2. induction s1 as [|a s1 IH]; intros [|b s2] Heq.
  - reflexivity.
  - apply (f_equal unquote_head) in Heq. cbn [quote] in Heq.
    rewrite unquote_head_quote_char in Heq. discriminate.
  - apply (f_equal unquote_head) in Heq. cbn [quote] in Heq.
    rewrite unquote_head_quote_char in Heq. discriminate.
  - apply (f_equal unquote_head) in Heq. cbn [quote] in Heq.
    rewrite !unquote_head_quote_char in Heq.
    injection Heq as -> Hrest. by rewrite (IH s2 Hrest).
Qed.

Lemma build_params_from_dom (params : list (string * param))
    (out : gmap string string) :
  dom (build_params_from out params)
  = dom out ∪ list_to_set (map (fun kv => camel_case kv.1) params).
Proof.
  unused_collaborators.
  revert out. induction params as [|[key value] params IH]; intros out.
  - cbn. set_solver.
  - cbn [build_params_from map list_to_set]. rewrite IH, dom_insert_L. set_solver.
Qed.

(** X5. The keys of the dict [build_params] returns are the converted
    keys of the parameters, no more and no less; of no parameters it makes
    the empty dict. *)
Theorem build_params_keys (params : list (string * param)) :
  dom (build_params params)
  = list_to_set (map (fun kv => camel_case kv.1) params) /\
  (params = [] -> build_params params = ∅).
Proof.
  unused_collaborators.
  split.
  - unfold build_params. rewrite build_params_from_dom. set_solver.
  - by intros ->.
Qed.

Lemma decimal_digits_safe (d : Decimal.uint) :
  string_forall safe_char (NilEmpty.string_of_uint d) = true.
Proof. induction d; cbn [NilEmpty.string_of_uint string_forall]; by rewrite ?IHd. Qed.

Lemma decimal_safe (i : Decimal.int) :
  string_forall safe_char (NilZero.string_of_int i) = true.
Proof.
  destruct i as [d|d]; cbn [NilZero.string_of_int string_forall];
    (destruct d; [reflexivity | apply (decimal_digits_safe (_ _)) ..]).
Qed.

Lemma series_id_params (z : Z) :
  build_params [("series_id", param_of_value (VInt z))]
  = {[ "seriesId" := NilZero.string_of_int (Z.to_int z) ]}.
Proof.
  unfold build_params. cbn [build_params_from param_of_value is_string negb py_str].
  rewrite (quote_safe _ (decimal_safe _)).
  change (camel_case "series_id") with "seriesId". apply insert_empty.
Qed.

(** X6. The show id that [SonarrClient.get_additional_data] passes to
    the episode request as [series_id] reaches the service, when it is an
    integer, as the one parameter [seriesId], in decimal digits with
    nothing quoted. *)
Theorem series_id_parameter (z : Z) :
  build_params [("series_id", param_of_value (VInt z))]
  = {[ "seriesId" := NilZero.string_of_int (Z.to_int z) ]}.
Proof. apply series_id_params. Qed.

(** ** The client and its requests *)



(** X8. A trailing slash on [base_url] makes no difference: the client
    built from a url without one is the client built from the url with the
    slash added. *)
Theorem DroneAPIClient_init_trailing_slash (cls : client_class)
    (headers : option (list (string * value))) (timeout : option Z)
    (base_url : string) (api_key : option value) :
  endswith base_url "/" = false ->
  DroneAPIClient_init cls headers timeout (Some (base_url ++ "/")) api_key
  = DroneAPIClient_init cls headers timeout (Some base_url) api_key.
Proof.
  intros Hslash. unfold DroneAPIClient_init.
  by rewrite Hslash, endswith_slash_appended.
Qed.

(** X9. Every call of [get] sends exactly one request, to the join of
    [api_url] and the endpoint with the converted parameters, and touches
    neither the cache nor the log. It raises what the transport raises;
    otherwise it returns the JSON of the answer when that is truthy and the
    empty list for any other answer (null, false, 0, an empty string, list
    or object), so that a loop over the result of a successful call of an
    endpoint that answers nothing runs no round. *)
Theorem get_answer (self : client) (endpoint : string) (params : list (string * param))
    (w : world) :
  let rq := {| req_url := match api_url self with
                          | Some base => urljoin base endpoint
                          | None => endpoint
                          end;
               req_params := build_params params |} in
  let w' := (get self endpoint params w).2 in
  sent w' = (sent w ++ [rq])%list /\ cache w' = cache w /\ log w' = log w /\
  (forall e, transport (sent w) rq = Raise e ->
     (get self endpoint params w).1 = Raise e) /\
  (forall j, transport (sent w) rq = Ok j ->
     (get self endpoint params w).1 = Ok (if truthy j then j else VList [])) /\
  (forall j, (get self endpoint params w).1 = Ok j ->
     truthy j = true \/ (j = VList [] /\ py_iter j = Ok [])).
Proof.
  cbn zeta. unfold get, bind, session_get, ret.
  destruct (transport _ _) as [j|e] eqn:Hanswer.
  - destruct (truthy j) eqn:Hj; cbn [fst snd sent cache log];
      (split; [reflexivity|]; split; [reflexivity|]; split; [reflexivity|];
       split; [discriminate|]; split).
    + intros j' [= <-]. by rewrite Hj.
    + intros j' [= <-]. by left.
    + intros j' [= <-]. by rewrite Hj.
    + intros j' [= <-]. by right.
  - cbn [fst snd sent cache log].
    split; [reflexivity|]. split; [reflexivity|]. split; [reflexivity|].
    split; [by intros e' [= <-]|]. split; discriminate.
Qed.

(** X10. A client built from a [base_url] that ends in ["api/"] has no
    [api_url], and every request it makes goes to the bare endpoint as its
    url instead of a url under [base_url]. *)
Theorem api_suffix_requests_bare_endpoint (cls : client_class)
    (headers : option (list (string * value))) (timeout : option Z)
    (base_url : string) (api_key : option value) :
  endswith base_url "api/" = true ->
  exists self,
    DroneAPIClient_init cls headers timeout (Some base_url) api_key = Ok self /\
    forall endpoint params w,
      sent (get self endpoint params w).2
      = (sent w ++ [{| req_url := endpoint; req_params := build_params params |}])%list.
Proof.
  intros Hapi. pose proof (endswith_api_slash base_url Hapi) as Hslash.
  unfold DroneAPIClient_init. eexists. split; [reflexivity|].
  intros endpoint params w. unfold get, bind, session_get, ret.
  cbn [api_url]. rewrite Hslash. cbn [negb]. rewrite Hapi. cbn [negb].
  destruct (transport _ _) as [j|e]; [destruct (truthy j)|]; reflexivity.
Qed.

(** ** How many requests a refinement costs *)

Lemma sends_ret {A} (n : nat) (a : A) : sends n (ret a).
Proof. intros w. exists []. split; [by rewrite app_nil_r | cbn; lia]. Qed.

Lemma sends_lift {A} (n : nat) (r : result A) : sends n (lift r).
Proof. intros w. exists []. split; [by rewrite app_nil_r | cbn; lia]. Qed.

Lemma sends_debug (n : nat) (msg : string) (args : list value) :
  sends n (debug msg args).
Proof. intros w. exists []. split; [by rewrite app_nil_r | cbn; lia]. Qed.

Lemma sends_bind {A B} (n m : nat) (c : M A) (k : A -> M B) :
  sends n c -> (forall a, sends m (k a)) -> sends (n + m) (bind c k).
Proof.
  intros Hc Hk w. unfold bind. destruct (Hc w) as (l & Hl & Hn).
  destruct (c w) as [[a|e] w1]; cbn [snd] in *.
  - destruct (Hk a w1) as (l' & Hl' & Hm). exists (l ++ l')%list.
    rewrite Hl', Hl, length_app, app_assoc. split; [reflexivity | lia].
  - exists l. split; [exact Hl | lia].
Qed.

Lemma sends_get (n : nat) (self : client) (endpoint : string)
    (params : list (string * param)) :
  sends (S n) (get self endpoint params).
Proof.
  intros w. unfold get, bind, session_get, ret. eexists [_].
  split; [|cbn; lia].
  destruct (transport _ _) as [j|e]; [destruct (truthy j)|]; reflexivity.
Qed.

Lemma sends_cache_on_arguments (n : nat) (key : string) (fn : M value) :
  sends n fn -> sends n (cache_on_arguments truthy key fn).
Proof.
  intros Hfn w. unfold cache_on_arguments.
  destruct (cache w !! key).
  - exists []. split; [by rewrite app_nil_r | cbn; lia].
  - destruct (Hfn w) as (l & Hl & Hn). exists l. split; [|exact Hn].
    destruct (fn w) as [[x|e] w1]; [destruct (truthy x)|]; exact Hl.
Qed.

Lemma sends_refresh (n : nat) (key : string) (fn : M value) :
  sends n fn -> sends n (refresh truthy key fn).
Proof.
  intros Hfn w. unfold refresh.
  destruct (Hfn w) as (l & Hl & Hn). exists l. split; [|exact Hn].
  destruct (fn w) as [[x|e] w1]; exact Hl.
Qed.

Lemma sends_silent {A} (c : M A) (w : world) : sends 0 c -> sent (c w).2 = sent w.
Proof.
  intros Hc. destruct (Hc w) as (l & Hl & Hn).
  destruct l; [by rewrite app_nil_r in Hl | cbn in Hn; lia].
Qed.

Ltac sends_step :=
  match goal with
  | |- sends _ (ret _) => apply sends_ret
  | |- sends _ (lift _) => apply sends_lift
  | |- sends _ (debug _ _) => apply sends_debug
  | |- sends (S _) (get _ _ _) => apply sends_get
  | |- sends _ (cache_on_arguments _ _ _) => apply sends_cache_on_arguments
  | |- sends _ (refresh _ _ _) => apply sends_refresh
  | |- sends ?n (bind (lift _) _) =>
      apply (sends_bind 0 n); [apply sends_lift | intros ?]
  | |- sends ?n (bind (debug _ _) _) =>
      apply (sends_bind 0 n); [apply sends_debug | intros ?]
  | |- sends ?n (bind (if ?b then _ else _) _) =>
      apply (sends_bind 0 n); [destruct b | intros ?]
  | |- sends (S ?n) (bind _ _) =>
      apply (sends_bind 1 n); [| intros ?]
  | |- sends _ (match ?x with _ => _ end) => destruct x
  | |- sends _ (if ?x then _ else _) => destruct x
  end.

Lemma get_show_id_sends (self : client) (v : video) : sends 2 (get_show_id self v).
Proof.
  unfold get_show_id, get_all_series, get_all_series_refresh, get_all_series_fetch.
  repeat sends_step.
Qed.

Lemma get_movie_sends (self : client) (v : video) : sends 2 (get_movie self v).
Proof.
  unfold get_movie, get_all_movies, get_all_movies_refresh, get_all_movies_fetch.
  repeat sends_step.
Qed.

Lemma get_additional_data_sends (self : client) (v : video) :
  sends 3 (get_additional_data self v) /\
  (class_of self = RadarrClient -> sends 2 (get_additional_data self v)).
Proof.
  unfold get_additional_data. split.
  - destruct (class_of self).
    + unfold Sonarr_get_additional_data.
      destruct (lacks_attr self v); [repeat sends_step|].
      apply (sends_bind 2 1); [apply get_show_id_sends | intros ?].
      repeat sends_step.
    + unfold Radarr_get_additional_data.
      destruct (lacks_attr self v); [repeat sends_step|].
      apply (sends_bind 2 1); [apply get_movie_sends | intros ?].
      repeat sends_step.
  - intros ->. unfold Radarr_get_additional_data.
    destruct (lacks_attr self v); [repeat sends_step|].
    apply (sends_bind 2 0); [apply get_movie_sends | intros ?].
    repeat sends_step.
Qed.

Lemma fill_from_guess_silent (fill : list string) (guess : gmap string value)
    (v : video) :
  sends 0 (fill_from_guess fill guess v).
Proof.
  revert v. induction fill as [|attr fill IH]; intros v; cbn [fill_from_guess].
  - apply sends_ret.
  - destruct (guess !! attr); [|apply IH].
    apply (sends_bind 0 0); [apply sends_debug | intros _; apply IH].
Qed.

Lemma fill_scene_name_silent (self : client) (v : video) (additional_data : value) :
  sends 0 (fill_scene_name self v additional_data).
Proof.
  unfold fill_scene_name, update_video.
  repeat first [apply fill_from_guess_silent | sends_step].
  apply (sends_bind 0 0); [apply fill_from_guess_silent | intros ?].
  apply sends_ret.
Qed.

(** X11. However it ends, [refine] only adds to the requests sent: at
    most three (the list of series, its refresh and the episodes of the
    show), and at most two for a movie (the list of movies and its
    refresh). *)
Theorem refine_requests (v : video) (kwargs : gmap string kwargs) (w : world) :
  exists l,
    sent (refine v kwargs w).2 = (sent w ++ l)%list /\
    (length l <= 3)%nat /\
    (media v = Movie -> (length l <= 2)%nat).
Proof.
  unfold refine. destruct (get_client v kwargs) as [self|e] eqn:Hclient.
  2:{ exists []. rewrite app_nil_r. cbn. repeat split; lia. }
  assert (Hclass : media v = Movie -> class_of self = RadarrClient).
  { intros Hmovie. unfold get_client in Hclient. rewrite Hmovie in Hclient.
    cbn [registry cfg_name] in Hclient.
    destruct (kwargs !! "radarr"); [|discriminate].
    unfold RadarrClient_init in Hclient.
    by apply DroneAPIClient_init_class in Hclient. }
  destruct (get_additional_data_sends self v) as [Hthree Htwo].
  destruct (Hthree w) as (l & Hl & Hn).
  assert (Hmovie : media v = Movie -> (length l <= 2)%nat).
  { intros Hm. destruct (Htwo (Hclass Hm) w) as (l' & Hl' & Hn').
    rewrite Hl in Hl'. by apply app_inv_head in Hl' as ->. }
  destruct (get_additional_data self v w) as [[additional_data|e] w1]; cbn [snd] in *.
  2:{ by exists l. }
  destruct (truthy additional_data); [|by exists l].
  pose proof (sends_silent (fill_scene_name self v additional_data) w1
                (fill_scene_name_silent self v additional_data)) as Hsilent.
  destruct (fill_scene_name self v additional_data w1) as [[v1|e] w2]; cbn [snd] in *.
  - destruct (fill_release_group v1 additional_data); cbn [snd];
      exists l; by rewrite Hsilent.
  - exists l. by rewrite Hsilent.
Qed.

Lemma cache_on_arguments_again (key : string) (fn : M value) (w w1 : world) (x : value) :
  cache_on_arguments truthy key fn w = (Ok x, w1) ->
  truthy x = true ->
  cache_on_arguments truthy key fn w1 = (Ok x, w1).
Proof.
  unfold cache_on_arguments. destruct (cache w !! key) as [y|] eqn:Hkey.
  - intros [= <- <-] _. by rewrite Hkey.
  - destruct (fn w) as [[y|e] w0]; [|discriminate].
    intros [= -> <-] Hx. rewrite Hx. cbn [cache]. by rewrite lookup_insert_eq.
Qed.

(** X12. Once a call of [get_all_series] or [get_all_movies] has
    returned a non-empty list, the next call returns the same list from
    the cache: nothing is sent and the world stays as it is. *)
Theorem memoized_second_call (self : client) (w w1 : world) (x : value) :
  truthy x = true ->
  (get_all_series self w = (Ok x, w1) -> get_all_series self w1 = (Ok x, w1)) /\
  (get_all_movies self w = (Ok x, w1) -> get_all_movies self w1 = (Ok x, w1)).
Proof.
  intros Hx. split; intros Hcall.
  - exact (cache_on_arguments_again _ _ w w1 x Hcall Hx).
  - exact (cache_on_arguments_again _ _ w w1 x Hcall Hx).
Qed.

Lemma get_movie_hit (self : client) (v : video) (w : world) (x movie : value)
    (records : list value) :
  cache w !! "radarr_movies" = Some x ->
  py_iter x = Ok records ->
  first_match (is_movie v (basename (name v))) records = Ok (Some movie) ->
  get_movie self v w = (Ok movie, w).
Proof.
  intros Hhit Hiter Hfound.
  unfold get_movie, get_all_movies, cache_on_arguments, radarr_movies_cache_key,
    bind, lift, ret.
  by rewrite Hhit, Hiter, Hfound.
Qed.

(** X13. When the cached list of movies holds the movie of the video,
    [refine] of the movie sends no request at all and leaves the cache as
    it is, however it ends. *)
Theorem refine_cached_movie_offline (v : video) (kwargs : gmap string kwargs)
    (w : world) (self : client) (x movie : value) (records : list value) :
  get_client v kwargs = Ok self ->
  class_of self = RadarrClient ->
  cache w !! "radarr_movies" = Some x ->
  py_iter x = Ok records ->
  first_match (is_movie v (basename (name v))) records = Ok (Some movie) ->
  sent (refine v kwargs w).2 = sent w /\ cache (refine v kwargs w).2 = cache w.
Proof.
  intros Hclient Hclass Hhit Hiter Hfound.
  pose proof (get_movie_hit self v w x movie records Hhit Hiter Hfound) as Hmovie.
  assert (Hdata : sent (get_additional_data self v w).2 = sent w /\
                  cache (get_additional_data self v w).2 = cache w).
  { unfold get_additional_data. rewrite Hclass. unfold Radarr_get_additional_data.
    destruct (lacks_attr self v); [by split|].
    unfold bind. rewrite Hmovie. unfold lift, ret, debug.
    destruct (truthy movie); cbn [negb]; [|by split].
    destruct (dict_get movie "movieFile" (VDict [])) as [movie_file|]; [|by split].
    destruct (dict_get movie_file "sceneName" VNone) as [scene_name|]; [|by split].
    destruct (dict_get movie_file "releaseGroup" VNone) as [release_group|];
      [|by split].
    by destruct (truthy scene_name), (truthy release_group). }
  unfold refine. rewrite Hclient.
  destruct (get_additional_data self v w) as [[additional_data|e] w1];
    cbn [snd] in *; [|exact Hdata].
  destruct (truthy additional_data); [|exact Hdata].
  pose proof (sends_silent (fill_scene_name self v additional_data) w1
                (fill_scene_name_silent self v additional_data)) as Hsilent.
  assert (Hcache : cache (fill_scene_name self v additional_data w1).2 = cache w1).
  { unfold fill_scene_name, bind, lift, ret.
    destruct (contains additional_data "scene_name") as [[|]|]; try done.
    destruct (subscript additional_data "scene_name") as [scene_name|]; [|done].
    destruct scene_name as [| | |s| |];
      try (unfold update_video, get_guess, bind, lift; done).
    destruct (update_video_run self v s w1) as (v1 & w2 & Hrun & _ & _ & Hq & _).
    rewrite Hrun. apply Hq. }
  destruct (fill_scene_name self v additional_data w1) as [[v1|e] w2];
    cbn [snd] in *.
  - destruct (fill_release_group v1 additional_data); cbn [snd];
      (split; [by rewrite Hsilent, (proj1 Hdata) | by rewrite Hcache, (proj2 Hdata)]).
  - split; [by rewrite Hsilent, (proj1 Hdata) | by rewrite Hcache, (proj2 Hdata)].
Qed.

(** ** What the service's data can be, and what [refine] makes of it *)

Ltac run_cases H :=
  repeat match type of H with
         | context [if ?b then _ else _] => destruct b eqn:?
         | context [match ?x with _ => _ end] => destruct x eqn:?
         end.

Lemma Sonarr_data_shape (self : client) (v : video) (w w' : world) (d : value) :
  Sonarr_get_additional_data self v w = (Ok d, w') ->
  d = VNone \/ exists scene_name,
    d = VDict [("scene_name", scene_name)] /\ truthy scene_name = true.
Proof.
  unfold Sonarr_get_additional_data, bind, lift, ret, debug. intros Hrun.
  run_cases Hrun; try discriminate; injection Hrun as <- _; eauto.
Qed.

Lemma Radarr_data_shape (self : client) (v : video) (w w' : world) (d : value) :
  Radarr_get_additional_data self v w = (Ok d, w') ->
  d = VNone \/ exists additional_data,
    d = VDict additional_data /\
    forall k x, items_get k additional_data = Some x ->
      truthy x = true /\ (k = "scene_name" \/ k = "release_group").
Proof.
  unfold Radarr_get_additional_data, bind, lift, ret, debug. intros Hrun.
  run_cases Hrun; try discriminate; injection Hrun as <- _; eauto;
    right; eexists; (split; [reflexivity|]); intros k x; cbn;
    repeat match goal with
           | |- context [String.eqb k ?key] =>
               let Hk := fresh "Hk" in
               destruct (String.eqb k key) eqn:Hk;
               [apply String.eqb_eq in Hk as ->; intros [= <-]; eauto|]
           end;
    discriminate.
Qed.

(** X14. What [get_additional_data] returns, when it returns, is None
    or a dict that holds nothing but a truthy [scene_name] and, for Radarr
    only, a truthy [release_group]: Sonarr never supplies a release
    group. *)
Theorem additional_data_shape (self : client) (v : video) (w w' : world) (d : value) :
  get_additional_data self v w = (Ok d, w') ->
  d = VNone \/ exists additional_data,
    d = VDict additional_data /\
    forall k x, items_get k additional_data = Some x ->
      truthy x = true /\
      (k = "scene_name" \/ (k = "release_group" /\ class_of self = RadarrClient)).
Proof.
  unfold get_additional_data. destruct (class_of self) eqn:Hclass; intros Hrun.
  - apply Sonarr_data_shape in Hrun as [->|(scene_name & -> & Htruthy)]; [by left|].
    right. eexists. split; [reflexivity|]. intros k x. cbn.
    destruct (String.eqb k "scene_name") eqn:Hk; [|discriminate].
    apply String.eqb_eq in Hk as ->. intros [= <-]. eauto.
  - apply Radarr_data_shape in Hrun as [->|(ad & -> & Hitems)]; [by left|].
    right. exists ad. split; [reflexivity|]. intros k x Hk.
    destruct (Hitems k x Hk) as [Htruthy [->| ->]]; eauto.
Qed.

(** X15. For an episode for which Sonarr has a scene name, [refine] is
    [update_video] with that scene name and nothing more: it ends as
    [update_video] ends, with the video [update_video] leaves. *)
Theorem refine_episode_is_update_video (v : video) (kwargs : gmap string kwargs)
    (w w1 : world) (self : client) (d : value) :
  get_client v kwargs = Ok self ->
  class_of self = SonarrClient ->
  get_additional_data self v w = (Ok d, w1) ->
  truthy d = true ->
  exists scene_name,
    d = VDict [("scene_name", scene_name)] /\
    truthy scene_name = true /\
    refine v kwargs w =
    match update_video self v scene_name w1 with
    | (Ok v', w2) => (Ok tt, v', w2)
    | (Raise e, w2) => (Raise e, v, w2)
    end.
Proof.
  intros Hclient Hclass Hdata Htruthy.
  pose proof Hdata as Hshape. unfold get_additional_data in Hshape.
  rewrite Hclass in Hshape.
  apply Sonarr_data_shape in Hshape as [->|(scene_name & -> & Hscene)];
    [discriminate|].
  exists scene_name. split; [reflexivity|]. split; [exact Hscene|].
  unfold refine. rewrite Hclient, Hdata. cbn [truthy].
  unfold fill_scene_name, bind, lift. cbn [contains subscript items_has items_get].
  cbn.
  destruct (update_video self v scene_name w1) as [[v'|e] w2]; reflexivity.
Qed.


(** X17. When the configuration has no entry for the client of the
    video's class, [refine] raises KeyError for the name of the entry
    (["sonarr"] or ["radarr"]) and leaves the video and the world as they
    were. *)
Theorem refine_missing_configuration (v : video) (kwargs : gmap string kwargs)
    (w : world) (cls : client_class) :
  registry (media v) = Some cls ->
  kwargs !! cfg_name cls = None ->
  refine v kwargs w = (Raise (KeyError (cfg_name cls)), v, w).
Proof.
  intros Hregistry Hmissing. unfold refine, get_client.
  by rewrite Hregistry, Hmissing.
Qed.

(** ** Errors that pass through *)

Lemma first_match_raises (p : value -> result bool) (good rest : list value)
    (bad : value) (e : exn) :
  Forall (fun x => p x = Ok false) good ->
  p bad = Raise e ->
  first_match p (good ++ bad :: rest)%list = Raise e.
Proof.
  intros Hgood Hbad. induction Hgood as [|x good Hx _ IH]; cbn.
  - by rewrite Hbad.
  - by rewrite Hx.
Qed.

(** X18. The lookup of a show does not skip a record it cannot read:
    when the records before it are not the video's, a record without a
    title makes [get_show_id] raise KeyError for ["title"], whatever
    follows it in the list; and when the show found has no id, it raises
    KeyError for ["id"]. In both cases nothing is refreshed. *)
Theorem get_show_id_unreadable_record (self : client) (v : video) (w w1 : world)
    (x series : value) :
  get_all_series self w = (Ok x, w1) ->
  attrs v !! "series" = Some series ->
  (forall good d rest,
     py_iter x = Ok (good ++ VDict d :: rest)%list ->
     Forall (fun s => is_correct_show v s = Ok false) good ->
     items_get "title" d = None ->
     get_show_id self v w = (Raise (KeyError "title"), w1)) /\
  (forall records d,
     py_iter x = Ok records ->
     first_match (is_correct_show v) records = Ok (Some (VDict d)) ->
     items_get "id" d = None ->
     get_show_id self v w = (Raise (KeyError "id"), w1)).
Proof.
  intros Hseries Hattr. split.
  - intros good d rest Hiter Hgood Htitle.
    unfold get_show_id, bind, lift. rewrite Hseries, Hiter.
    rewrite (first_match_raises _ good rest (VDict d) (KeyError "title") Hgood);
      [reflexivity|].
    unfold is_correct_show, rbind, subscript. by rewrite Htitle.
  - intros records d Hiter Hfound Hid.
    unfold get_show_id, bind, lift. rewrite Hseries, Hiter, Hfound.
    unfold subscript. by rewrite Hid.
Qed.

(** X19. When the list of series or movies is not in the cache and the
    request for it fails, [refine] raises what the transport raised: the
    video is as it was, nothing is logged or cached, and the one request
    is all that was sent. *)
Theorem refine_transport_failure (v : video) (kwargs : gmap string kwargs)
    (w : world) (self : client) (e : exn) :
  let key := match class_of self with
             | SonarrClient => "sonarr_series"
             | RadarrClient => "radarr_movies"
             end in
  let endpoint := match class_of self with
                  | SonarrClient => "series"
                  | RadarrClient => "movie"
                  end in
  let rq := {| req_url := match api_url self with
                          | Some base => urljoin base endpoint
                          | None => endpoint
                          end;
               req_params := ∅ |} in
  get_client v kwargs = Ok self ->
  lacks_attr self v = false ->
  cache w !! key = None ->
  transport (sent w) rq = Raise e ->
  refine v kwargs w
  = (Raise e, v,
     {| cache := cache w; log := log w; sent := (sent w ++ [rq])%list |}).
Proof.
  cbn zeta. intros Hclient Hlacks Hmiss Hfail.
  unfold refine, get_additional_data. rewrite Hclient.
  destruct (class_of self) eqn:Hclass.
  - unfold Sonarr_get_additional_data. rewrite Hlacks.
    unfold bind, get_show_id, bind, get_all_series, cache_on_arguments,
      sonarr_series_cache_key, get_all_series_fetch, get, bind, session_get.
    rewrite Hmiss. change (build_params []) with (∅ : gmap string string).
    by rewrite Hfail.
  - unfold Radarr_get_additional_data. rewrite Hlacks.
    unfold bind, get_movie, bind, get_all_movies, cache_on_arguments,
      radarr_movies_cache_key, get_all_movies_fetch, get, bind, session_get.
    rewrite Hmiss. change (build_params []) with (∅ : gmap string string).
    by rewrite Hfail.
Qed.

(** X20. A scene name that is not a string makes [refine] raise
    TypeError with the video as it was. A release group that is not a
    string does the same when there is no scene name and the video has no
    release group of its own. *)
Theorem refine_data_not_a_string (v : video) (kwargs : gmap string kwargs)
    (w w1 : world) (self : client) (additional_data : list (string * value))
    (x : value) :
  get_client v kwargs = Ok self ->
  get_additional_data self v w = (Ok (VDict additional_data), w1) ->
  (forall s, x <> VStr s) ->
  (items_get "scene_name" additional_data = Some x ->
   refine v kwargs w = (Raise TypeError, v, w1)) /\
  (forall old,
     items_get "scene_name" additional_data = None ->
     items_get "release_group" additional_data = Some x ->
     attrs v !! "release_group" = Some old -> truthy old = false ->
     refine v kwargs w = (Raise TypeError, v, w1)).
Proof.
  intros Hclient Hdata Hx. unfold refine. rewrite Hclient, Hdata. split.
  - intros Hscene.
    assert (Htruthy : truthy (VDict additional_data) = true)
      by (destruct additional_data; [discriminate | reflexivity]).
    rewrite Htruthy.
    unfold fill_scene_name, bind, lift, contains, subscript, items_has.
    rewrite Hscene. unfold update_video, bind, lift, get_guess.
    destruct x as [| | |s| |]; try reflexivity. by destruct (Hx s).
  - intros old Hscene Hgroup Hold Hfalsy.
    assert (Htruthy : truthy (VDict additional_data) = true)
      by (destruct additional_data; [discriminate | reflexivity]).
    rewrite Htruthy.
    unfold fill_scene_name, bind, lift, ret, contains, items_has.
    rewrite Hscene.
    unfold fill_release_group, rbind, contains, subscript, getattr, items_has.
    rewrite Hgroup, Hold, Hfalsy. cbn [negb].
    destruct x as [| | |s| |]; try reflexivity. by destruct (Hx s).
Qed.

(** ** [update_video] once more *)

Lemma video_eq (v v' : video) :
  media v = media v' -> name v = name v' -> attrs v = attrs v' -> v = v'.
Proof. destruct v, v'. cbn. by intros -> -> ->. Qed.

(** X21. [update_video] is idempotent on the video: run again with the
    same scene name on the video it has left, it leaves that video
    unchanged. *)
Theorem update_video_idempotent (self : client) (v v1 : video) (scene_name : string)
    (w w1 : world) :
  update_video self v (VStr scene_name) w = (Ok v1, w1) ->
  forall w2, (update_video self v1 (VStr scene_name) w2).1 = Ok v1.
Proof.
  intros Hfirst w2.
  destruct (update_video_run self v scene_name w)
    as (u & wu & Hrun & Hm & Hn & _ & Hattrs).
  rewrite Hrun in Hfirst. injection Hfirst as <- <-.
  destruct (update_video_run self
              (setattr u "original_name"
                 (VStr (remove_crap (scene_name ++ (splitext (name v)).2))))
              scene_name w2)
    as (u' & wu' & Hrun' & Hm' & Hn' & _ & Hattrs').
  rewrite Hrun'. cbn [fst]. f_equal. cbn [setattr name] in *.
  rewrite Hn in *. apply video_eq; cbn [setattr media name attrs].
  - exact Hm'.
  - congruence.
  - apply map_eq. intros attr.
    destruct (decide (attr = "original_name")) as [->|Hne].
    + by rewrite !lookup_insert_eq.
    + rewrite !lookup_insert_ne by done. rewrite Hattrs'. cbn [setattr attrs].
      rewrite lookup_insert_ne by done. rewrite Hattrs.
      case_decide; [|done]. by destruct (guessit _ _ !! attr).
Qed.

(** ** The record a lookup returns *)

Lemma first_match_some (p : value -> result bool) (l : list value) (x : value) :
  first_match p l = Ok (Some x) ->
  exists before after,
    l = (before ++ x :: after)%list /\
    Forall (fun y => p y = Ok false) before /\ p x = Ok true.
Proof.
  induction l as [|y l IH]; [discriminate|]. cbn.
  destruct (p y) as [[|]|] eqn:Hy; try discriminate.
  - intros [= <-]. exists [], l. by repeat split.
  - intros (before & after & -> & Hbefore & Hx)%IH.
    exists (y :: before), after. repeat split; [|exact Hx]. by constructor.
Qed.

(** X22. What [get_movie] returns is None or a record of the list it
    scanned, the memoized list or else the refreshed one: the first record
    of that list that [is_correct_movie] accepts, every record before it
    having been read without an error and rejected. *)
Theorem get_movie_first_accepted (self : client) (v : video) (w w' : world) (m : value) :
  get_movie self v w = (Ok m, w') ->
  m = VNone \/
  exists x before after,
    py_iter x = Ok (before ++ m :: after)%list /\
    Forall (fun r => is_movie v (basename (name v)) r = Ok false) before /\
    is_movie v (basename (name v)) m = Ok true /\
    ((get_all_movies self w).1 = Ok x \/
     (get_all_movies_refresh self
        (logged "%s: Movie not found, refreshing cache" [VStr (name v)]
           (get_all_movies self w).2)).1 = Ok x).
Proof.
  unfold get_movie, bind, lift, ret, logged. cbn [debug snd].
  destruct (get_all_movies self w) as [[x|] w1]; [|discriminate]. cbn [fst snd].
  destruct (py_iter x) as [records|] eqn:Hiter; [|discriminate].
  destruct (first_match _ records) as [[first|]|] eqn:Hfirst; [| |discriminate].
  - intros [= <- <-]. right.
    apply first_match_some in Hfirst as (before & after & -> & Hbefore & Hm).
    exists x, before, after. eauto.
  - destruct (get_all_movies_refresh self _) as [[x'|] w2]; [|discriminate].
    cbn [fst].
    destruct (py_iter x') as [records'|] eqn:Hiter'; [|discriminate].
    destruct (first_match _ records') as [[first|]|] eqn:Hfirst'; [| |discriminate].
    + intros [= <- <-]. right.
      apply first_match_some in Hfirst' as (before & after & -> & Hbefore & Hm).
      exists x', before, after. eauto.
    + intros [= <- <-]. by left.
Qed.

Lemma get_show_id_hit (self : client) (v : video) (w : world) (x show : value)
    (records : list value) :
  cache w !! "sonarr_series" = Some x ->
  py_iter x = Ok records ->
  first_match (is_correct_show v) records = Ok (Some show) ->
  get_show_id self v w = (subscript show "id", w).
Proof.
  intros Hhit Hiter Hfound.
  unfold get_show_id, get_all_series, cache_on_arguments, sonarr_series_cache_key,
    bind, lift.
  by rewrite Hhit, Hiter, Hfound.
Qed.

Lemma get_sent (self : client) (endpoint : string) (params : list (string * param))
    (w : world) :
  sent (get self endpoint params w).2
  = (sent w ++ [{| req_url := match api_url self with
                              | Some base => urljoin base endpoint
                              | None => endpoint
                              end;
                   req_params := build_params params |}])%list.
Proof.
  unfold get, bind, session_get, ret.
  destruct (transport _ _) as [j|e]; [destruct (truthy j)|]; reflexivity.
Qed.

(** X23. For an episode whose show is in the cached list of series
    under a non-zero integer id, [get_additional_data] sends one request
    and no more: to the [episode] endpoint, with the id in decimal as its
    only parameter, [seriesId]. *)
Theorem episode_request (self : client) (v : video) (w : world) (x show : value)
    (records : list value) (z : Z) :
  class_of self = SonarrClient ->
  lacks_attr self v = false ->
  cache w !! "sonarr_series" = Some x ->
  py_iter x = Ok records ->
  first_match (is_correct_show v) records = Ok (Some show) ->
  subscript show "id" = Ok (VInt z) ->
  z <> 0 ->
  sent (get_additional_data self v w).2
  = (sent w ++
     [{| req_url := match api_url self with
                    | Some base => urljoin base "episode"
                    | None => "episode"
                    end;
         req_params := {[ "seriesId" := NilZero.string_of_int (Z.to_int z) ]} |}])%list.
Proof.
  intros Hclass Hlacks Hhit Hiter Hfound Hid Hz.
  unfold get_additional_data. rewrite Hclass.
  unfold Sonarr_get_additional_data. rewrite Hlacks. unfold bind at 1.
  rewrite (get_show_id_hit self v w x show records Hhit Hiter Hfound), Hid.
  assert (Htruthy : truthy (VInt z) = true).
  { cbn. apply negb_true_iff. by apply Z.eqb_neq. }
  rewrite Htruthy. cbn [negb].
  match goal with
  | |- sent (bind ?c ?k w).2 = _ =>
      assert (Hrest : forall a, sends 0 (k a)) by (intros a; repeat sends_step);
      pose proof (get_sent self "episode"
                    [("series_id", param_of_value (VInt z))] w) as Hsent;
      unfold bind at 1; destruct (c w) as [[a|e] w1]; cbn [snd] in Hsent |- *;
      [pose proof (sends_silent (k a) w1 (Hrest a)) as Hsilent;
       cbn beta in Hsilent; rewrite Hsilent|];
      rewrite Hsent, series_id_params; reflexivity
  end.
Qed.

(** X24. [refine] is not all or nothing: when the scene name has been
    dealt with and the release group of the service, which the video then
    needs, is not a string, [refine] raises TypeError and the video keeps
    what [update_video] has written, [original_name] included. *)
Theorem refine_partial_update (v : video) (kwargs : gmap string kwargs)
    (w w1 : world) (self : client) (additional_data : list (string * value))
    (scene_name : string) (x old : value) :
  let guess_from := remove_crap (scene_name ++ (splitext (name v)).2) in
  let guess :=
    guessit guess_from
      [("single_value", VBool true);
       ("type", VStr match class_of self with
                     | SonarrClient => "episode"
                     | RadarrClient => "movie"
                     end)] in
  get_client v kwargs = Ok self ->
  get_additional_data self v w = (Ok (VDict additional_data), w1) ->
  items_get "scene_name" additional_data = Some (VStr scene_name) ->
  items_get "release_group" additional_data = Some x ->
  (forall s, x <> VStr s) ->
  guess !! "release_group" = None ->
  attrs v !! "release_group" = Some old ->
  truthy old = false ->
  exists v1 w2,
    update_video self v (VStr scene_name) w1 = (Ok v1, w2) /\
    refine v kwargs w = (Raise TypeError, v1, w2) /\
    attrs v1 !! "original_name" = Some (VStr guess_from).
Proof.
  cbn zeta. intros Hclient Hdata Hscene Hgroup Hx Hguess Hold Hfalsy.
  assert (Htruthy : truthy (VDict additional_data) = true)
    by (destruct additional_data; [discriminate | reflexivity]).
  destruct (update_video_run self v scene_name w1)
    as (u & w2 & Hrun & _ & _ & _ & Hattrs).
  eexists _, w2. split; [exact Hrun|]. split; [|apply lookup_insert_eq].
  unfold refine. rewrite Hclient, Hdata, Htruthy.
  unfold fill_scene_name, bind, lift, contains, subscript, items_has.
  rewrite Hscene, Hrun.
  unfold fill_release_group, rbind, contains, subscript, getattr, items_has.
  rewrite Hgroup. cbn [negb setattr attrs].
  rewrite lookup_insert_ne by done. rewrite Hattrs.
  rewrite decide_True by (apply elem_of_cons; by left).
  rewrite Hguess, Hold, Hfalsy.
  destruct x as [| | |s| |]; try reflexivity. by destruct (Hx s).
Qed.

(** ** Text parameters and paths *)

Lemma utf8_char_safe (a : ascii) :
  safe_char a = true -> utf8_char (N_of_ascii a) = [a].
Proof. destruct a as [[] [] [] [] [] [] [] []]; vm_compute; congruence. Qed.

Lemma encode_utf8_safe (s : string) :
  string_forall safe_char s = true -> encode_utf8 (code_points s) = s.
Proof.
  unfold encode_utf8. induction s as [|a s IH]; [reflexivity|].
  cbn [string_forall code_points map concat].
  intros [Ha Hs]%andb_true_iff. rewrite (utf8_char_safe a Ha).
  cbn. by rewrite (IH Hs).
Qed.

(** X25. A text value made of letters, digits and [_.-/] only, such as
    an id the service gives as a string, goes through [build_params]
    unchanged: neither the UTF-8 step nor the quoting alters it. *)
Theorem build_params_plain_text (key s : string) :
  string_forall safe_char s = true ->
  build_params [(key, param_of_value (VStr s))] = {[ camel_case key := s ]}.
Proof.
  intros Hs. unfold build_params.
  cbn [build_params_from param_of_value is_string negb].
  rewrite (encode_utf8_safe s Hs), (quote_safe s Hs). apply insert_empty.
Qed.

Lemma substring_full (s : string) : String.substring 0 (String.length s) s = s.
Proof. induction s as [|a s IH]; [reflexivity|]. cbn. by rewrite IH. Qed.

Lemma substring_split (s : string) (n : nat) :
  (n <= String.length s)%nat ->
  String.substring 0 n s ++ String.substring n (String.length s - n) s = s.
Proof.
  revert n. induction s as [|a s IH]; intros [|n] Hn; cbn in Hn; try lia.
  - reflexivity.
  - rewrite Nat.sub_0_r, substring_full. reflexivity.
  - cbn [String.substring String.length Nat.sub]. rewrite append_cons.
    by rewrite IH by lia.
Qed.

Lemma rfind_from_last (c : ascii) (s : string) (i last : Z) :
  last < i ->
  let r := rfind_from c s i last in
  (r = last /\ string_forall (fun a => negb (Ascii.eqb a c)) s = true) \/
  (i <= r < i + Z.of_nat (String.length s) /\
   string_forall (fun a => negb (Ascii.eqb a c))
     (String.substring (Z.to_nat (r - i) + 1)
        (String.length s - (Z.to_nat (r - i) + 1)) s) = true).
Proof.
  cbn zeta. revert i last. induction s as [|a s IH]; intros i last Hlast.
  - left. by split.
  - cbn [rfind_from].
    destruct (IH (i + 1) (if Ascii.eqb a c then i else last)) as [[Hr Hs]|[Hr Hs]].
    { destruct (Ascii.eqb a c); lia. }
    + destruct (Ascii.eqb a c) eqn:Ha.
      * right. rewrite Hr. split; [cbn [String.length]; lia|].
        replace (Z.to_nat (i - i) + 1)%nat with 1%nat by lia.
        cbn [String.length Nat.sub String.substring].
        rewrite Nat.sub_0_r, substring_full. exact Hs.
      * left. split; [exact Hr|]. cbn. by rewrite Ha, Hs.
    + right. split; [cbn [String.length]; lia|].
      replace (Z.to_nat (rfind_from c s (i + 1) (if Ascii.eqb a c then i else last) - i))
        with (S (Z.to_nat (rfind_from c s (i + 1) (if Ascii.eqb a c then i else last)
                           - (i + 1)))) by lia.
      cbn [String.length Nat.sub Nat.add String.substring]. exact Hs.
Qed.

(** X26. The two path functions lose nothing and split where they
    should: the root and the extension [splitext] returns make up the
    path again, and [basename], the file name that [get_movie] compares
    with the [relativePath] of a movie, is the end of the path and holds
    no slash. *)
Theorem path_parts (p : string) :
  (splitext p).1 ++ (splitext p).2 = p /\
  string_forall (fun a => negb (Ascii.eqb a "/")) (basename p) = true /\
  exists dir, dir ++ basename p = p.
Proof.
  pose proof (rfind_from_last "." p 0 (-1) ltac:(lia)) as Hdot.
  pose proof (rfind_from_last "/" p 0 (-1) ltac:(lia)) as Hsep.
  cbn zeta in Hdot, Hsep. fold (rfind "." p) in Hdot. fold (rfind "/" p) in Hsep.
  split; [|split].
  - unfold splitext. destruct (_ && _); cbn [fst snd]; [|apply append_empty].
    unfold slice, slice_from. cbn [Z.to_nat]. rewrite Nat.sub_0_r.
    apply substring_split. destruct Hdot as [[-> _]|[Hr _]]; lia.
  - unfold basename, slice_from. destruct Hsep as [[-> Hs]|[Hr Hs]].
    + cbn [Z.add Z.to_nat Z.opp]. change (Z.to_nat (-1 + 1)) with 0%nat.
      by rewrite Nat.sub_0_r, substring_full.
    + replace (Z.to_nat (rfind "/" p + 1)) with (Z.to_nat (rfind "/" p - 0) + 1)%nat
        by lia.
      exact Hs.
  - unfold basename, slice_from.
    exists (String.substring 0 (Z.to_nat (rfind "/" p + 1)) p).
    apply substring_split. destruct Hsep as [[-> _]|[Hr _]]; lia.
Qed.

End Drone.

(** * The module at work on the sample installation *)

Example splitext_mkv :
  splitext "/tv/Show/S01E02.final.mkv" = ("/tv/Show/S01E02.final", ".mkv").
Proof. reflexivity. Qed.

Example splitext_hidden : splitext "/tv/.hidden" = ("/tv/.hidden", "").
Proof. reflexivity. Qed.

Example basename_mkv : basename "/movies/A (2000)/A.mkv" = "A.mkv".
Proof. reflexivity. Qed.

Example split_segments : split "_" "series_id__x" = ["series"; "id"; ""; "x"].
Proof. reflexivity. Qed.

Example capitalize_lowers : camel_case "series_ID" = "seriesId".
Proof. reflexivity. Qed.

Example quote_space_tilde : quote "a b/c~d" = "a%20b/c%7Ed".
Proof. reflexivity. Qed.

Example str_negative : py_str (PInt (-120)) = "-120".
Proof. reflexivity. Qed.

Example get_client_sonarr :
  get_client Sample.urljoin Sample.episode_video Sample.cfg = Ok Sample.sonarr.
Proof. reflexivity. Qed.

Example get_client_radarr :
  get_client Sample.urljoin Sample.movie_video Sample.cfg = Ok Sample.radarr.
Proof. reflexivity. Qed.

(** ** C10 on a sample *)

Lemma build_params_camel_case_quoted_witness :
  build_params [("series_id", PInt 7); ("search_term", PUnicode [233%N; 32%N])]
    !! "seriesId" = Some "7" /\
  build_params [("series_id", PInt 7); ("search_term", PUnicode [233%N; 32%N])]
    !! "searchTerm" = Some "%C3%A9%20".
Proof.
  destruct (build_params_camel_case_quoted
              [("series_id", PInt 7); ("search_term", PUnicode [233%N; 32%N])])
    as (_ & _ & Hvalue & _).
  assert (Hnodup : NoDup ["seriesId"; "searchTerm"]).
  { apply (bool_decide_unpack _). vm_compute. exact I. }
  split.
  - apply (Hvalue Hnodup "series_id" (PInt 7)). apply elem_of_cons. by left.
  - apply (Hvalue Hnodup "search_term" (PUnicode [233%N; 32%N])).
    apply elem_of_cons. right. apply elem_of_cons. by left.
Defined.

(** ** C9 on a sample *)

Lemma DroneAPIClient_init_api_url_witness :
  exists self,
    DroneAPIClient_init Sample.urljoin SonarrClient None None
      (Some "http://sonarr/api/") None = Ok self /\
    api_url self = None.
Proof.
  destruct (DroneAPIClient_init_api_url Sample.urljoin SonarrClient None None
              "http://sonarr/api/" None) as (self & Hinit & _ & _ & Hnone).
  exists self. split; [exact Hinit|]. apply Hnone. reflexivity.
Defined.

(** ** C4 and C8 on a sample *)

Lemma get_client_dispatch_witness :
  get_client Sample.urljoin Sample.episode_video Sample.cfg
  = SonarrClient_init Sample.urljoin
      {| kw_headers := None; kw_timeout := None;
         kw_base_url := Some "http://sonarr"; kw_api_key := Some (VStr "k1") |} /\
  get_client Sample.urljoin Sample.movie_video Sample.cfg
  = RadarrClient_init Sample.urljoin
      {| kw_headers := None; kw_timeout := None;
         kw_base_url := Some "http://radarr/"; kw_api_key := Some (VStr "k2") |}.
Proof.
  split.
  - destruct (get_client_dispatch Sample.urljoin Sample.episode_video Sample.cfg)
      as (Hepisode & _ & _).
    apply Hepisode; reflexivity.
  - destruct (get_client_dispatch Sample.urljoin Sample.movie_video Sample.cfg)
      as (_ & Hmovie & _).
    apply Hmovie; reflexivity.
Defined.

Lemma refine_unsupported_media_witness :
  refine Sample.guessit Sample.remove_crap Sample.urljoin Sample.transport Sample.repr
    Sample.subtitle_video Sample.cfg Sample.empty_world
  = (Raise (NotImplementedError "Video"), Sample.subtitle_video, Sample.empty_world).
Proof.
  apply (refine_unsupported_media Sample.guessit Sample.remove_crap Sample.urljoin
           Sample.transport Sample.repr Sample.subtitle_video Sample.cfg
           Sample.empty_world); discriminate.
Defined.

(** ** C2 and C5 on a sample *)

Lemma update_video_fills_witness :
  exists v' w',
    update_video Sample.guessit Sample.remove_crap Sample.sonarr Sample.episode_video
      (VStr "Show.Two.S01E02.720p-GRP") Sample.empty_world = (Ok v', w') /\
    attrs v' !! "release_group" = Some (VStr "GRP") /\
    attrs v' !! "format" = Some VNone /\
    attrs v' !! "original_name" = Some (VStr "Show.Two.S01E02.720p-GRP.mkv") /\
    attrs v' !! "season" = Some (VInt 1).
Proof.
  destruct (update_video_fills Sample.guessit Sample.remove_crap Sample.sonarr
              Sample.episode_video "Show.Two.S01E02.720p-GRP" Sample.empty_world)
    as (v' & w' & Hrun & _ & Hfill & Hname & (_ & _ & Hother) & _).
  exists v', w'. split; [exact Hrun|]. split; [|split; [|split]].
  - rewrite Hfill; [reflexivity|]. apply elem_of_cons. by left.
  - rewrite Hfill; [reflexivity|]. apply elem_of_cons. right.
    apply elem_of_cons. by left.
  - exact Hname.
  - rewrite Hother; [reflexivity|].
    apply (bool_decide_unpack _). vm_compute. exact I.
Defined.

Lemma refine_frame_witness :
  attrs (refine Sample.guessit Sample.remove_crap Sample.urljoin Sample.transport
           Sample.repr Sample.episode_video Sample.cfg Sample.empty_world).1.2
    !! "series" = Some (VStr "Show Two").
Proof.
  destruct (refine_frame Sample.guessit Sample.remove_crap Sample.urljoin
              Sample.transport Sample.repr Sample.episode_video Sample.cfg
              Sample.empty_world) as (_ & _ & Hother).
  rewrite Hother; [reflexivity|].
  apply (bool_decide_unpack _). vm_compute. exact I.
Defined.

(** ** C6 on a sample *)

Lemma refine_release_group_witness :
  attrs (refine Sample.guessit Sample.remove_crap Sample.urljoin Sample.transport
           Sample.repr Sample.other_movie_video Sample.cfg Sample.empty_world).1.2
    !! "release_group" = Some (VStr "GRP").
Proof.
  rewrite (refine_release_group Sample.guessit Sample.remove_crap Sample.urljoin
             Sample.transport Sample.repr Sample.other_movie_video Sample.cfg
             Sample.empty_world Sample.radarr [("release_group", VStr "GRP")]
             (get_additional_data Sample.urljoin Sample.transport Sample.repr
                Sample.radarr Sample.other_movie_video Sample.empty_world).2
             Sample.other_movie_video
             (get_additional_data Sample.urljoin Sample.transport Sample.repr
                Sample.radarr Sample.other_movie_video Sample.empty_world).2
             "GRP" VNone);
    reflexivity.
Defined.

(** ** C1 on a sample *)

(** The second show is found in the list fetched for the empty cache;
    the movie known under another title is found by the path of its file. *)
Lemma lookup_by_identity_witness :
  (get_show_id Sample.urljoin Sample.transport Sample.sonarr Sample.episode_video
     Sample.empty_world).1 = Ok (VInt 8) /\
  (get_movie Sample.urljoin Sample.transport Sample.radarr Sample.renamed_movie_video
     Sample.empty_world).1 = Ok Sample.movie1.
Proof.
  split.
  - destruct (lookup_by_identity Sample.urljoin Sample.transport Sample.sonarr
                Sample.episode_video Sample.empty_world
                (get_all_series Sample.urljoin Sample.transport Sample.sonarr
                   Sample.empty_world).2
                (VList [Sample.show1; Sample.show2]) [Sample.show1; Sample.show2]
                eq_refl) as [Hshow _].
    specialize (Hshow (VStr "Show Two") VNone eq_refl eq_refl eq_refl).
    rewrite Hshow; [reflexivity|].
    repeat constructor.
  - destruct (lookup_by_identity Sample.urljoin Sample.transport Sample.radarr
                Sample.renamed_movie_video Sample.empty_world
                (get_all_movies Sample.urljoin Sample.transport Sample.radarr
                   Sample.empty_world).2
                (VList [Sample.movie1; Sample.movie2]) [Sample.movie1; Sample.movie2]
                eq_refl) as [_ Hmovie].
    specialize (Hmovie (VStr "Le Film") VNone eq_refl eq_refl eq_refl).
    rewrite Hmovie; [reflexivity|].
    repeat constructor.
Defined.

(** C1 as worded fails for Radarr: no movie of the list has the title or
    the id of the video, the refreshed list has none either, and still the
    lookup returns a movie, the one whose file has the video's file name,
    without refreshing the cache. *)
Lemma claimed_get_movie_counterexample :
  ~ claimed_get_movie Sample.urljoin Sample.transport Sample.radarr
      Sample.renamed_movie_video Sample.empty_world.
Proof.
  intros Hclaim.
  specialize (Hclaim (VStr "Le Film") VNone
                (VList [Sample.movie1; Sample.movie2]) [Sample.movie1; Sample.movie2]
                (get_all_movies Sample.urljoin Sample.transport Sample.radarr
                   Sample.empty_world).2
                eq_refl eq_refl eq_refl eq_refl).
  cbn [find identity_matches] in Hclaim.
  change (find (identity_matches (VStr "Le Film") VNone)
            [Sample.movie1; Sample.movie2]) with (@None value) in Hclaim.
  specialize (Hclaim (VList [Sample.movie1; Sample.movie2])
                [Sample.movie1; Sample.movie2]
                (get_all_movies_refresh Sample.urljoin Sample.transport Sample.radarr
                   (logged "%s: Movie not found, refreshing cache"
                      [VStr (name Sample.renamed_movie_video)]
                      (get_all_movies Sample.urljoin Sample.transport Sample.radarr
                         Sample.empty_world).2)).2
                eq_refl eq_refl).
  apply (f_equal fst) in Hclaim. vm_compute in Hclaim. discriminate Hclaim.
Qed.

(** ** C3 on a sample *)

(** An episode of a show the service does not know: nothing changes. *)
Lemma refine_no_data_witness :
  (refine Sample.guessit Sample.remove_crap Sample.urljoin Sample.transport Sample.repr
     Sample.unknown_video Sample.cfg Sample.empty_world).1
  = (Ok tt, Sample.unknown_video).
Proof.
  destruct (refine_no_data Sample.guessit Sample.remove_crap Sample.urljoin
              Sample.transport Sample.repr Sample.unknown_video Sample.cfg
              Sample.empty_world Sample.sonarr
              (get_show_id Sample.urljoin Sample.transport Sample.sonarr
                 Sample.unknown_video Sample.empty_world).2
              true eq_refl)
    as (additional_data & w' & _ & _ & Hrefine & _).
  - apply (no_data_show Sample.urljoin Sample.transport Sample.repr Sample.sonarr
             Sample.unknown_video Sample.empty_world VNone); reflexivity.
  - rewrite Hrefine. reflexivity.
Defined.

(** C3 as worded fails for Radarr: the movie found has no scene name,
    and [refine] still writes its release group onto the video. *)
Lemma claimed_skip_without_scene_name_counterexample :
  ~ claimed_skip_without_scene_name Sample.guessit Sample.remove_crap Sample.urljoin
      Sample.transport Sample.repr Sample.other_movie_video Sample.cfg
      Sample.empty_world.
Proof.
  intros Hclaim.
  specialize (Hclaim Sample.radarr Sample.movie1
                (get_movie Sample.urljoin Sample.transport Sample.radarr
                   Sample.other_movie_video Sample.empty_world).2
                (VDict [("relativePath", VStr "Film.mkv"); ("releaseGroup", VStr "GRP")])
                VNone eq_refl eq_refl eq_refl eq_refl eq_refl eq_refl eq_refl).
  apply (f_equal (fun v => attrs v !! "release_group")) in Hclaim.
  vm_compute in Hclaim. discriminate Hclaim.
Qed.

(** ** C7 on a sample *)

(** With a list under the key nothing is fetched; the lookup of a show
    that is in it leaves the world alone. *)
Lemma memoized_lists_witness :
  get_all_series Sample.urljoin Sample.transport Sample.sonarr Sample.cached_world
  = (Ok (VList [Sample.show2]), Sample.cached_world) /\
  (get_show_id Sample.urljoin Sample.transport Sample.sonarr Sample.episode_video
     Sample.cached_world).2 = Sample.cached_world /\
  cache (get_show_id Sample.urljoin Sample.transport Sample.sonarr Sample.unknown_video
           Sample.cached_world).2 !! "sonarr_series"
  = Some (VList [Sample.show1; Sample.show2]).
Proof.
  destruct (memoized_lists Sample.urljoin Sample.transport Sample.sonarr
              Sample.cached_world)
    as (_ & Hhit & _ & _ & _ & Hfound & _ & Hrefresh & _).
  split; [apply Hhit; reflexivity|]. split.
  - apply (Hfound Sample.episode_video (VList [Sample.show2]) [Sample.show2]
             Sample.show2); reflexivity.
  - rewrite (Hrefresh Sample.unknown_video (VList [Sample.show2]) [Sample.show2]
               (VStr "Show Three") (VList [Sample.show1; Sample.show2])
               (get_all_series_fetch Sample.urljoin Sample.transport Sample.sonarr
                  (logged "%s: Show not found, refreshing cache: %s"
                     [VStr (name Sample.unknown_video); VStr "Show Three"]
                     Sample.cached_world)).2);
      reflexivity.
Defined.

(** * The further properties on the sample installation *)

Lemma camel_case_without_underscore_witness : camel_case "seriesId" = "seriesId".
Proof. apply (camel_case_without_underscore "seriesId"). reflexivity. Defined.

Lemma quote_alphabet_witness :
  quote "Show.Two-S01_E02/x" = "Show.Two-S01_E02/x".
Proof.
  destruct (quote_alphabet "Show.Two-S01_E02/x") as (Hsafe & _).
  apply Hsafe. reflexivity.
Defined.

Lemma quote_injective_witness : "a b" = "a b".
Proof. apply (quote_injective "a b" "a b"). reflexivity. Defined.

Lemma build_params_keys_witness : build_params [] = ∅.
Proof.
  destruct (build_params_keys []) as (_ & Hempty). apply Hempty. reflexivity.
Defined.


Lemma DroneAPIClient_init_trailing_slash_witness :
  DroneAPIClient_init Sample.urljoin SonarrClient None None (Some "http://sonarr/") None
  = DroneAPIClient_init Sample.urljoin SonarrClient None None (Some "http://sonarr") None.
Proof.
  apply (DroneAPIClient_init_trailing_slash Sample.urljoin SonarrClient None None
           "http://sonarr" None).
  reflexivity.
Defined.

Lemma get_answer_witness :
  (get Sample.urljoin Sample.transport Sample.sonarr "series" [] Sample.empty_world).1
  = Ok (VList [Sample.show1; Sample.show2]) /\
  (get Sample.urljoin Sample.transport Sample.sonarr "calendar" [] Sample.empty_world).1
  = Raise RequestException.
Proof.
  split.
  - destruct (get_answer Sample.urljoin Sample.transport Sample.sonarr "series" []
                Sample.empty_world) as (_ & _ & _ & _ & Hok & _).
    apply (Hok (VList [Sample.show1; Sample.show2])). reflexivity.
  - destruct (get_answer Sample.urljoin Sample.transport Sample.sonarr "calendar" []
                Sample.empty_world) as (_ & _ & _ & Hraise & _).
    apply Hraise. reflexivity.
Defined.

Lemma api_suffix_requests_bare_endpoint_witness :
  exists self,
    DroneAPIClient_init Sample.urljoin SonarrClient None None
      (Some "http://sonarr/api/") None = Ok self /\
    sent (get Sample.urljoin Sample.transport self "series" [] Sample.empty_world).2
    = [{| req_url := "series"; req_params := ∅ |}].
Proof.
  destruct (api_suffix_requests_bare_endpoint Sample.urljoin Sample.transport
              SonarrClient None None "http://sonarr/api/" None eq_refl)
    as (self & Hinit & Hsent).
  exists self. split; [exact Hinit|]. apply (Hsent "series" [] Sample.empty_world).
Defined.

Lemma refine_requests_witness :
  exists l,
    sent (refine Sample.guessit Sample.remove_crap Sample.urljoin Sample.transport
            Sample.repr Sample.movie_video Sample.cfg Sample.empty_world).2
    = l /\ (length l <= 2)%nat.
Proof.
  destruct (refine_requests Sample.guessit Sample.remove_crap Sample.urljoin
              Sample.transport Sample.repr Sample.movie_video Sample.cfg
              Sample.empty_world) as (l & Hsent & _ & Hmovie).
  exists l. split; [exact Hsent | apply Hmovie; reflexivity].
Defined.

Lemma memoized_second_call_witness :
  get_all_series Sample.urljoin Sample.transport Sample.sonarr
    (get_all_series Sample.urljoin Sample.transport Sample.sonarr Sample.empty_world).2
  = (Ok (VList [Sample.show1; Sample.show2]),
     (get_all_series Sample.urljoin Sample.transport Sample.sonarr Sample.empty_world).2).
Proof.
  destruct (memoized_second_call Sample.urljoin Sample.transport Sample.sonarr
              Sample.empty_world
              (get_all_series Sample.urljoin Sample.transport Sample.sonarr
                 Sample.empty_world).2
              (VList [Sample.show1; Sample.show2]) eq_refl) as (Hseries & _).
  apply Hseries. reflexivity.
Defined.

Lemma refine_cached_movie_offline_witness :
  sent (refine Sample.guessit Sample.remove_crap Sample.urljoin Sample.transport
          Sample.repr Sample.movie_video Sample.cfg Sample.cached_movies_world).2 = [].
Proof.
  destruct (refine_cached_movie_offline Sample.guessit Sample.remove_crap
              Sample.urljoin Sample.transport Sample.repr Sample.movie_video
              Sample.cfg Sample.cached_movies_world Sample.radarr
              (VList [Sample.movie2]) Sample.movie2 [Sample.movie2]
              eq_refl eq_refl eq_refl eq_refl eq_refl) as (Hsent & _).
  exact Hsent.
Defined.

Lemma additional_data_shape_witness :
  VDict [("scene_name", VStr "Show.Two.S01E02.720p-GRP")] = VNone \/
  exists additional_data,
    VDict [("scene_name", VStr "Show.Two.S01E02.720p-GRP")] = VDict additional_data /\
    forall k x, items_get k additional_data = Some x ->
      truthy x = true /\
      (k = "scene_name" \/
       (k = "release_group" /\ class_of Sample.sonarr = RadarrClient)).
Proof.
  apply (additional_data_shape Sample.urljoin Sample.transport Sample.repr
           Sample.sonarr Sample.episode_video Sample.empty_world
           (get_additional_data Sample.urljoin Sample.transport Sample.repr
              Sample.sonarr Sample.episode_video Sample.empty_world).2).
  reflexivity.
Defined.

Lemma refine_episode_is_update_video_witness :
  refine Sample.guessit Sample.remove_crap Sample.urljoin Sample.transport Sample.repr
    Sample.episode_video Sample.cfg Sample.empty_world
  = match update_video Sample.guessit Sample.remove_crap Sample.sonarr
            Sample.episode_video (VStr "Show.Two.S01E02.720p-GRP")
            (get_additional_data Sample.urljoin Sample.transport Sample.repr
               Sample.sonarr Sample.episode_video Sample.empty_world).2 with
    | (Ok v', w2) => (Ok tt, v', w2)
    | (Raise e, w2) => (Raise e, Sample.episode_video, w2)
    end.
Proof.
  destruct (refine_episode_is_update_video Sample.guessit Sample.remove_crap
              Sample.urljoin Sample.transport Sample.repr Sample.episode_video
              Sample.cfg Sample.empty_world
              (get_additional_data Sample.urljoin Sample.transport Sample.repr
                 Sample.sonarr Sample.episode_video Sample.empty_world).2
              Sample.sonarr (VDict [("scene_name", VStr "Show.Two.S01E02.720p-GRP")])
              eq_refl eq_refl eq_refl eq_refl)
    as (scene_name & Hdata & _ & Hrefine).
  injection Hdata as <-. exact Hrefine.
Defined.


Lemma refine_missing_configuration_witness :
  refine Sample.guessit Sample.remove_crap Sample.urljoin Sample.transport Sample.repr
    Sample.movie_video Sample.down_cfg Sample.empty_world
  = (Raise (KeyError "radarr"), Sample.movie_video, Sample.empty_world).
Proof.
  apply (refine_missing_configuration Sample.guessit Sample.remove_crap Sample.urljoin
           Sample.transport Sample.repr Sample.movie_video Sample.down_cfg
           Sample.empty_world RadarrClient); reflexivity.
Defined.

Lemma get_show_id_unreadable_record_witness :
  get_show_id Sample.urljoin Sample.transport Sample.sonarr Sample.episode_video
    Sample.broken_world
  = (Raise (KeyError "title"), Sample.broken_world).
Proof.
  destruct (get_show_id_unreadable_record Sample.urljoin Sample.transport Sample.sonarr
              Sample.episode_video Sample.broken_world Sample.broken_world
              (VList [VDict [("id", VInt 1)]; Sample.show2]) (VStr "Show Two")
              eq_refl eq_refl) as (Htitle & _).
  apply (Htitle [] [("id", VInt 1)] [Sample.show2]); [reflexivity | constructor | reflexivity].
Defined.

Lemma refine_transport_failure_witness :
  (refine Sample.guessit Sample.remove_crap Sample.urljoin Sample.transport Sample.repr
     Sample.episode_video Sample.down_cfg Sample.empty_world).1
  = (Raise RequestException, Sample.episode_video).
Proof.
  rewrite (refine_transport_failure Sample.guessit Sample.remove_crap Sample.urljoin
             Sample.transport Sample.repr Sample.episode_video Sample.down_cfg
             Sample.empty_world Sample.down RequestException);
    reflexivity.
Defined.

Lemma refine_data_not_a_string_witness :
  (refine Sample.guessit Sample.remove_crap Sample.urljoin Sample.odd_transport
     Sample.repr Sample.episode_video Sample.cfg Sample.empty_world).1
  = (Raise TypeError, Sample.episode_video).
Proof.
  destruct (refine_data_not_a_string Sample.guessit Sample.remove_crap Sample.urljoin
              Sample.odd_transport Sample.repr Sample.episode_video Sample.cfg
              Sample.empty_world
              (get_additional_data Sample.urljoin Sample.odd_transport Sample.repr
                 Sample.sonarr Sample.episode_video Sample.empty_world).2
              Sample.sonarr [("scene_name", VInt 5)] (VInt 5) eq_refl eq_refl)
    as (Hscene & _).
  { intros s. discriminate. }
  rewrite Hscene; reflexivity.
Defined.

Lemma update_video_idempotent_witness :
  exists v1,
    (update_video Sample.guessit Sample.remove_crap Sample.sonarr Sample.episode_video
       (VStr "Show.Two.S01E02.720p-GRP") Sample.empty_world).1 = Ok v1 /\
    (update_video Sample.guessit Sample.remove_crap Sample.sonarr v1
       (VStr "Show.Two.S01E02.720p-GRP") Sample.empty_world).1 = Ok v1.
Proof.
  destruct (update_video Sample.guessit Sample.remove_crap Sample.sonarr
              Sample.episode_video (VStr "Show.Two.S01E02.720p-GRP")
              Sample.empty_world) as [[v1|e] w1] eqn:Hrun.
  - exists v1. split; [reflexivity|].
    apply (update_video_idempotent Sample.guessit Sample.remove_crap Sample.sonarr
             Sample.episode_video v1 "Show.Two.S01E02.720p-GRP" Sample.empty_world w1
             Hrun).
  - vm_compute in Hrun. discriminate Hrun.
Defined.

Lemma get_movie_first_accepted_witness :
  Sample.movie1 = VNone \/
  exists x before after,
    py_iter x = Ok (before ++ Sample.movie1 :: after)%list /\
    Forall (fun r => is_movie Sample.renamed_movie_video
                       (basename (name Sample.renamed_movie_video)) r = Ok false)
           before /\
    is_movie Sample.renamed_movie_video (basename (name Sample.renamed_movie_video))
      Sample.movie1 = Ok true /\
    ((get_all_movies Sample.urljoin Sample.transport Sample.radarr
        Sample.empty_world).1 = Ok x \/
     (get_all_movies_refresh Sample.urljoin Sample.transport Sample.radarr
        (logged "%s: Movie not found, refreshing cache"
           [VStr (name Sample.renamed_movie_video)]
           (get_all_movies Sample.urljoin Sample.transport Sample.radarr
              Sample.empty_world).2)).1 = Ok x).
Proof.
  apply (get_movie_first_accepted Sample.urljoin Sample.transport Sample.radarr
           Sample.renamed_movie_video Sample.empty_world
           (get_movie Sample.urljoin Sample.transport Sample.radarr
              Sample.renamed_movie_video Sample.empty_world).2).
  reflexivity.
Defined.

Lemma episode_request_witness :
  sent (get_additional_data Sample.urljoin Sample.transport Sample.repr Sample.sonarr
          Sample.episode_video Sample.cached_world).2
  = [{| req_url := "http://sonarr/api/episode"; req_params := {[ "seriesId" := "8" ]} |}].
Proof.
  apply (episode_request Sample.urljoin Sample.transport Sample.repr Sample.sonarr
           Sample.episode_video Sample.cached_world (VList [Sample.show2]) Sample.show2
           [Sample.show2] 8); (reflexivity || discriminate).
Defined.

Lemma refine_partial_update_witness :
  exists v1,
    (refine Sample.blind_guessit Sample.remove_crap Sample.urljoin Sample.odd_transport
       Sample.repr Sample.odd_movie_video Sample.cfg Sample.empty_world).1
    = (Raise TypeError, v1) /\
    attrs v1 !! "original_name" = Some (VStr "Odd.1999.720p.mkv").
Proof.
  destruct (refine_partial_update Sample.blind_guessit Sample.remove_crap
              Sample.urljoin Sample.odd_transport Sample.repr Sample.odd_movie_video
              Sample.cfg Sample.empty_world
              (get_additional_data Sample.urljoin Sample.odd_transport Sample.repr
                 Sample.radarr Sample.odd_movie_video Sample.empty_world).2
              Sample.radarr
              [("scene_name", VStr "Odd.1999.720p"); ("release_group", VInt 5)]
              "Odd.1999.720p" (VInt 5) VNone eq_refl eq_refl eq_refl eq_refl)
    as (v1 & w2 & _ & Hrefine & Hname); try reflexivity.
  { intros s. discriminate. }
  exists v1. split; [by rewrite Hrefine | exact Hname].
Defined.

Lemma build_params_plain_text_witness :
  build_params [("imdb_id", param_of_value Sample.repr (VStr "tt0000001"))]
  = {[ "imdbId" := "tt0000001" ]}.
Proof.
  apply (build_params_plain_text Sample.repr "imdb_id" "tt0000001"). reflexivity.
Defined.
